(** * go-cowsql: client wire protocol, leader connector, driver error mapping

    A shallow embedding of the parts of go-cowsql that its specification
    talks about:

    - [GoErr]: Go error values with their wrapping chains ([errors.As],
      [errors.Is]);
    - [Msg]: the [Message] buffer (header, body, header fields);
    - [Proto]: [Protocol.Call], [More], [Interrupt] and the send/receive
      path of [internal/protocol/protocol.go], over the [net.Conn]
      interface;
    - [Conn]: the leader connector of [internal/protocol/connector.go]
      ([Connect], [connectAttemptAll], [connectAttemptOne], [Handshake],
      [makeRetryStrategies]);
    - [Driver]: [driverError] and the Exec/Query entry points of
      [driver/driver.go];
    - [Store]: [YamlNodeStore] of [client/store.go].

    Integers of fixed width are [Z] with the wrap-around written out,
    strings are [string], slices are lists (or locations in a heap of
    backing arrays where aliasing matters). *)

From Stdlib Require Import ZArith List String Ascii Bool Lia Permutation Sorted.
From stdpp Require Import base decidable option list strings gmap.
Import ListNotations.
Local Open Scope string_scope.
Local Open Scope Z_scope.

(** ** Go error values *)

Module GoErr.

(** The error values that travel through the code: leaves of the standard
    library and of the package, the two wrapping errors of [net] and [os],
    and [fmt.Errorf] with and without a [%w] verb. A format string stands
    for the formatted message. *)
Inductive error : Type :=
| Errno (errno : Z)                          (* syscall.Errno *)
| SyscallError (syscall : string) (err : error)    (* os.SyscallError *)
| OpError (op : string) (err : error)        (* net.OpError *)
| ErrDeadlineExceeded                        (* os.ErrDeadlineExceeded *)
| EOF                                        (* io.EOF *)
| ErrShortWrite                              (* io.ErrShortWrite *)
| ErrNoProgress                              (* io.ErrNoProgress *)
| ErrRequest (Code : Z) (Description : string)     (* protocol.ErrRequest *)
| Error (Code : Z) (Message : string)        (* protocol.Error = driver.Error *)
| ErrBadConn                                 (* database/sql/driver.ErrBadConn *)
| ErrNoAvailableLeader                       (* protocol.ErrNoAvailableLeader *)
| errBadProtocol                             (* protocol.errBadProtocol *)
| Errorf (format : string)                   (* fmt.Errorf without %w *)
| ErrorfW (format : string) (err : error).   (* fmt.Errorf with one %w *)

(** [Unwrap], as the three wrapping types implement it. *)
Definition Unwrap (e : error) : option error :=
  match e with
  | SyscallError _ err => Some err
  | OpError _ err => Some err
  | ErrorfW _ err => Some err
  | _ => None
  end.

(** [errors.As(err, &target)] for a target of type [syscall.Errno]: the
    first [Errno] on the chain. *)
Fixpoint As_Errno (e : error) : option Z :=
  match e with
  | Errno n => Some n
  | SyscallError _ err => As_Errno err
  | OpError _ err => As_Errno err
  | ErrorfW _ err => As_Errno err
  | _ => None
  end.

(** [errors.As(err, &target)] for a target of type [*net.OpError]: the
    first [OpError] on the chain, returned whole. *)
Fixpoint As_OpError (e : error) : option error :=
  match e with
  | OpError op err => Some (OpError op err)
  | SyscallError _ err => As_OpError err
  | ErrorfW _ err => As_OpError err
  | _ => None
  end.

(** [errors.As(err, &target)] for a target of type [protocol.ErrRequest]. *)
Fixpoint As_ErrRequest (e : error) : option (Z * string) :=
  match e with
  | ErrRequest c d => Some (c, d)
  | SyscallError _ err => As_ErrRequest err
  | OpError _ err => As_ErrRequest err
  | ErrorfW _ err => As_ErrRequest err
  | _ => None
  end.

(** [errors.Is(err, io.EOF)]. *)
Fixpoint Is_EOF (e : error) : bool :=
  match e with
  | EOF => true
  | SyscallError _ err => Is_EOF err
  | OpError _ err => Is_EOF err
  | ErrorfW _ err => Is_EOF err
  | _ => false
  end.

(** The [Timeout() bool] method of the leaves that have one. *)
Definition leaf_Timeout (e : error) : bool :=
  match e with
  | ErrDeadlineExceeded => true
  | Errno n => (n =? 11) || (n =? 110)   (* EAGAIN/EWOULDBLOCK, ETIMEDOUT *)
  | _ => false
  end.

(** The [Timeout] method of [net.OpError]: it looks through one
    [os.SyscallError]. *)
Definition OpError_Timeout (e : error) : bool :=
  match e with
  | OpError _ (SyscallError _ inner) => leaf_Timeout inner
  | OpError _ inner => leaf_Timeout inner
  | _ => false
  end.

(** An error wrapped by successive [fmt.Errorf] calls with a [%w] verb. *)
Fixpoint wrapped (formats : list string) (e : error) : error :=
  match formats with
  | [] => e
  | f :: fs => ErrorfW f (wrapped fs e)
  end.

End GoErr.
Export GoErr.

(** ** Message buffers *)

Module Msg.

Definition messageWordSize : Z := 8.
Definition messageHeaderSize : Z := 8.

(** [len(s)] of a slice, as a Go [int]. *)
Definition len {A : Type} (l : list A) : Z := Z.of_nat (length l).

(** [make([]byte, n)]: a zeroed slice. *)
Definition make_bytes (n : Z) : list Byte.byte := repeat Byte.x00 (Z.to_nat n).

Definition byte_val (b : Byte.byte) : Z := Z.of_N (Byte.to_N b).

(** [byte(v)]: the low eight bits of [v]. *)
Definition byte_of (v : Z) : Byte.byte :=
  match Byte.of_N (Z.to_N (Z.land v 255)) with
  | Some b => b
  | None => Byte.x00
  end.

(** [binary.LittleEndian.Uint32] and [Uint16] over the first bytes of a
    slice (missing bytes read as zero; the header always has eight). *)
Definition le_uint (width : nat) (bs : list Byte.byte) : Z :=
  fold_right (fun b acc => Z.lor (byte_val b) (Z.shiftl acc 8)) 0
             (firstn width bs).

Definition Uint32 (bs : list Byte.byte) : Z := le_uint 4 bs.
Definition Uint16 (bs : list Byte.byte) : Z := le_uint 2 bs.

(** [binary.LittleEndian.PutUint32]/[PutUint16]: the bytes written. *)
Fixpoint le_bytes (width : nat) (v : Z) : list Byte.byte :=
  match width with
  | O => []
  | S w => byte_of v :: le_bytes w (Z.shiftr v 8)
  end.

(** The [buffer] of a message body: the backing bytes and the cursor. *)
Record buffer : Type := mkBuffer {
  Bytes : list Byte.byte;
  Offset : Z
}.

(** [Message]: the decoded header fields, the raw header and the body. *)
Record Message : Type := mkMessage {
  words : Z;                 (* uint32 *)
  mtype : Z;                 (* uint8 *)
  schema : Z;                (* uint8 *)
  extra : Z;                 (* uint16 *)
  header : list Byte.byte;   (* [messageHeaderSize]byte *)
  body : buffer
}.

Definition set_body_Bytes (bs : list Byte.byte) (m : Message) : Message :=
  mkMessage (words m) (mtype m) (schema m) (extra m) (header m)
            (mkBuffer bs (Offset (body m))).

Definition set_header (h : list Byte.byte) (m : Message) : Message :=
  mkMessage (words m) (mtype m) (schema m) (extra m) h (body m).

(** Modelled from the spec: [Message.Init] of message.go, which is not
    among the sources. The spec has a message "allocated once with an
    initial capacity hint" whose body capacity is a multiple of the
    word size; the tests call [Init(8)], [Init(16)], [Init(64)],
    [Init(512)], [Init(4096)]. *)
Definition Init (initialBufferSize : Z) : Message :=
  mkMessage 0 0 0 0 (make_bytes messageHeaderSize)
            (mkBuffer (make_bytes initialBufferSize) 0).

(** Modelled from the spec: [Message.reset] of message.go, which is not
    among the sources. The spec has [reset] come before every encoding and
    every receive, the buffer "reused across many calls (pooled, not
    reallocated unless growth is required)" and a receive that "always
    starts from offset 0": the header and its fields are cleared, the
    cursor returns to zero and the backing bytes are kept. *)
Definition reset (m : Message) : Message :=
  mkMessage 0 0 0 0 (make_bytes messageHeaderSize)
            (mkBuffer (Bytes (body m)) 0).

(** Modelled from the spec: [Message.putHeader] of message.go, which is
    not among the sources. The spec: "finalizes by computing
    words = ceil(offset / 8), writing the header fields", with the header
    laid out as "words:uint32 | type:uint8 | schema:uint8 | flags:uint16",
    little-endian. *)
Definition putHeader (mtype0 schema0 : Z) (m : Message) : Message :=
  let w := (Offset (body m) + messageWordSize - 1) / messageWordSize in
  let w32 := w mod 2 ^ 32 in
  let t := mtype0 mod 256 in
  let s := schema0 mod 256 in
  mkMessage w32 t s (extra m)
            (le_bytes 4 w32 ++ [byte_of t; byte_of s] ++ le_bytes 2 (extra m))
            (body m).

(** Request and response type codes (constants of the protocol package). *)
Definition RequestLeader : Z := 0.
Definition RequestClient : Z := 1.
Definition RequestExec : Z := 5.
Definition RequestQuery : Z := 6.
Definition RequestExecSQL : Z := 8.
Definition RequestQuerySQL : Z := 9.
Definition RequestInterrupt : Z := 10.
Definition ResponseFailure : Z := 0.
Definition ResponseEmpty : Z := 8.

Definition VersionOne : Z := 1.
Definition VersionLegacy : Z := 0x86104dd760433fe5.

(** [Message.getHeader]: the type and schema of a received message. *)
Definition getHeader (m : Message) : Z * Z := (mtype m, schema m).

(** The body encoders and the response decoders of message.go and
    response.go are not among the sources; the request encoders of
    request.go are written over them. [NamedValue] stands for
    [driver.NamedValue]. *)
Class Codec (NamedValue : Type) : Type := {
  putUint32 : Z -> Message -> Message;
  putUint64 : Z -> Message -> Message;
  putString : string -> Message -> Message;
  putNamedValues : list NamedValue -> Message -> Message;
  putNamedValues32 : list NamedValue -> Message -> Message;
  DecodeNode : Message -> (Z * string) + error;
  DecodeNodeLegacy : Message -> string + error;
  DecodeWelcome : Message -> Z + error
}.

Section Encoders.
Context {NamedValue : Type} {codec : Codec NamedValue}.

(** request.go, generated: each encoder resets the message, writes the
    body and finalizes the header with the request type and schema. *)
Definition EncodeLeader (request : Message) : Message :=
  putHeader RequestLeader 0 (putUint64 0 (reset request)).

Definition EncodeClient (id : Z) (request : Message) : Message :=
  putHeader RequestClient 0 (putUint64 id (reset request)).

Definition EncodeInterrupt (db : Z) (request : Message) : Message :=
  putHeader RequestInterrupt 0 (putUint64 db (reset request)).

Definition EncodeExecV0 (db stmt : Z) (values : list NamedValue)
           (request : Message) : Message :=
  putHeader RequestExec 0
    (putNamedValues values (putUint32 stmt (putUint32 db (reset request)))).

Definition EncodeExecV1 (db stmt : Z) (values : list NamedValue)
           (request : Message) : Message :=
  putHeader RequestExec 1
    (putNamedValues32 values (putUint32 stmt (putUint32 db (reset request)))).

Definition EncodeQueryV0 (db stmt : Z) (values : list NamedValue)
           (request : Message) : Message :=
  putHeader RequestQuery 0
    (putNamedValues values (putUint32 stmt (putUint32 db (reset request)))).

Definition EncodeQueryV1 (db stmt : Z) (values : list NamedValue)
           (request : Message) : Message :=
  putHeader RequestQuery 1
    (putNamedValues32 values (putUint32 stmt (putUint32 db (reset request)))).

Definition EncodeExecSQLV0 (db : Z) (sql : string) (values : list NamedValue)
           (request : Message) : Message :=
  putHeader RequestExecSQL 0
    (putNamedValues values (putString sql (putUint64 db (reset request)))).

Definition EncodeExecSQLV1 (db : Z) (sql : string) (values : list NamedValue)
           (request : Message) : Message :=
  putHeader RequestExecSQL 1
    (putNamedValues32 values (putString sql (putUint64 db (reset request)))).

Definition EncodeQuerySQLV0 (db : Z) (sql : string) (values : list NamedValue)
           (request : Message) : Message :=
  putHeader RequestQuerySQL 0
    (putNamedValues values (putString sql (putUint64 db (reset request)))).

Definition EncodeQuerySQLV1 (db : Z) (sql : string) (values : list NamedValue)
           (request : Message) : Message :=
  putHeader RequestQuerySQL 1
    (putNamedValues32 values (putString sql (putUint64 db (reset request)))).
End Encoders.

End Msg.
Export Msg.

(** ** The outside world: connections, dialing, the clock *)

Module Net.

Definition Time : Type := Z.
Definition Duration : Type := Z.

(** [context.Context], as far as the code looks at it: the deadline.
    Cancellation by the caller is an event of the world, see
    [caller_cancelled]. *)
Record Context : Type := mkContext { Deadline : option Time }.

Definition Background : Context := mkContext None.

Record NodeInfo : Type := mkNodeInfo {
  ID : Z;             (* uint64 *)
  Address : string;
  Role : Z            (* NodeRole, an int *)
}.

Definition Voter : Z := 0.
Definition StandBy : Z := 1.
Definition Spare : Z := 2.

(** What the code does to its environment, in the order it does it. *)
Inductive Event {ConnT : Type} : Type :=
| EvLock                                   (* p.mu.Lock() *)
| EvUnlock                                 (* p.mu.Unlock() *)
| EvSetDeadline (c : ConnT) (t : option Time)    (* conn.SetDeadline *)
| EvWrite (c : ConnT) (data : list Byte.byte)    (* conn.Write *)
| EvRead (c : ConnT) (size : Z)            (* conn.Read into a buffer of that size *)
| EvClose (c : ConnT)                      (* conn.Close *)
| EvDial (address : string)                (* config.Dial *)
| EvStoreGet                               (* store.Get *)
| EvSleep (d : Duration).                  (* time.Sleep *)
Arguments Event ConnT : clear implicits.

(** The interfaces the code is written against: [net.Conn], the
    [DialFunc] of the configuration, the [NodeStore], the clock and
    [time.Sleep]. Every operation takes the world to its next state. A
    [Read] returns the bytes it stored in the buffer; their number is the
    [n] of the Go call. Every operation returns: a [Read], a [Write] or
    a dial that blocks for ever, as on a silent peer when no deadline is
    set, is not among the behaviours of a [Network], so that what is
    shown of the connections is shown for the runs in which their
    operations return. *)
Class Network : Type := {
  World : Type;
  ConnT : Type;
  conn_Write : ConnT -> list Byte.byte -> World -> World * (Z * option error);
  conn_Read : ConnT -> Z -> World -> World * (list Byte.byte * option error);
  conn_SetDeadline : ConnT -> option Time -> World -> World;
  conn_Close : ConnT -> World -> World * option error;
  Dial : Context -> string -> World -> World * (ConnT + error);
  store_Get : World -> World * (list NodeInfo + error);
  now : World -> Time;
  sleep : Duration -> World -> World;
  caller_cancelled : World -> bool
}.

Section State.
Context {N : Network}.

(** The world together with the record of what was done to it. *)
Record St : Type := mkSt { world : World; trace : list (Event ConnT) }.

(** Computations over the world. [None]: the call never returns. *)
Definition M (A : Type) : Type := St -> option (St * A).

Definition ret {A : Type} (a : A) : M A := fun s => Some (s, a).

Definition bind {A B : Type} (m : M A) (k : A -> M B) : M B :=
  fun s => match m s with
           | Some (s', a) => k a s'
           | None => None
           end.

Definition diverge {A : Type} : M A := fun _ => None.

Definition emit (e : Event ConnT) : M unit :=
  fun s => Some (mkSt (world s) (trace s ++ [e]), tt).

Definition Lock : M unit := emit EvLock.
Definition Unlock : M unit := emit EvUnlock.

Definition connSetDeadline (c : ConnT) (t : option Time) : M unit :=
  fun s => Some (mkSt (conn_SetDeadline c t (world s))
                      (trace s ++ [EvSetDeadline c t]), tt).

Definition connWrite (c : ConnT) (data : list Byte.byte) : M (Z * option error) :=
  fun s => let '(w, r) := conn_Write c data (world s) in
           Some (mkSt w (trace s ++ [EvWrite c data]), r).

(** [conn.Read(buf)] with [len(buf) = size]: at most [size] bytes are
    stored. *)
Definition connRead (c : ConnT) (size : Z) : M (list Byte.byte * option error) :=
  fun s => let '(w, (data, err)) := conn_Read c size (world s) in
           Some (mkSt w (trace s ++ [EvRead c size]),
                 (firstn (Z.to_nat size) data, err)).

Definition connClose (c : ConnT) : M (option error) :=
  fun s => let '(w, r) := conn_Close c (world s) in
           Some (mkSt w (trace s ++ [EvClose c]), r).

Definition dial (ctx : Context) (address : string) : M (ConnT + error) :=
  fun s => let '(w, r) := Dial ctx address (world s) in
           Some (mkSt w (trace s ++ [EvDial address]), r).

Definition storeGet : M (list NodeInfo + error) :=
  fun s => let '(w, r) := store_Get (world s) in
           Some (mkSt w (trace s ++ [EvStoreGet]), r).

Definition Sleep (d : Duration) : M unit :=
  fun s => Some (mkSt (sleep d (world s)) (trace s ++ [EvSleep d]), tt).

Definition getNow : M Time := fun s => Some (s, now (world s)).

(** The outline of a record of events: what was done to find the leader
    (dialing, asking the store, sleeping), without what was done on the
    connections. *)
Definition outline (t : list (Event ConnT)) : list (Event ConnT) :=
  flat_map (fun e => match e with
                     | EvDial _ | EvStoreGet | EvSleep _ => [e]
                     | _ => []
                     end) t.

(** A computation that always returns, with the events it adds to the
    record and its result related by [Q]. *)
Definition runs {A : Type} (m : M A)
           (Q : A -> list (Event ConnT) -> Prop) : Prop :=
  forall st, exists st' a t,
    m st = Some (st', a)
    /\ trace st' = (trace st ++ t)%list
    /\ Q a t.

(** An event on the connection [c] other than its closing, or on the
    lock of the protocol that owns it. *)
Definition on (c : ConnT) (e : Event ConnT) : Prop :=
  match e with
  | EvLock | EvUnlock => True
  | EvSetDeadline c' _ | EvWrite c' _ | EvRead c' _ => c' = c
  | _ => False
  end.

(** The addresses dialed, in order, and the number of times the store was
    asked for its list, in a record of events. *)
Definition dials (t : list (Event ConnT)) : list string :=
  flat_map (fun e => match e with EvDial a => [a] | _ => [] end) t.

Definition store_gets (t : list (Event ConnT)) : nat :=
  length (flat_map (fun e => match e with EvStoreGet => [tt] | _ => [] end) t).

(** [ctx.Done()] is closed, [ctx.Err() != nil]: the caller cancelled or
    the deadline passed. *)
Definition ctxDone (ctx : Context) : M bool :=
  fun s => Some (s, caller_cancelled (world s)
                    || match Deadline ctx with
                       | Some d => d <=? now (world s)
                       | None => false
                       end).

(** [context.WithTimeout(ctx, d)]: the earlier of the parent's deadline
    and now plus [d]. *)
Definition WithTimeout (ctx : Context) (d : Duration) : M Context :=
  fun s => let t := now (world s) + d in
           Some (s, mkContext (Some match Deadline ctx with
                                    | Some t0 => Z.min t0 t
                                    | None => t
                                    end)).
End State.

Declare Scope go_scope.
Notation "'let!' p ':=' m 'in' k" := (bind m (fun p => k))
  (at level 10, p pattern, m at level 100, k at level 200, only parsing)
  : go_scope.
Notation "m ;;; k" := (bind m (fun _ => k))
  (at level 100, k at level 200, right associativity, only parsing)
  : go_scope.

End Net.
Export Net.
Local Open Scope go_scope.

(** ** The call engine: internal/protocol/protocol.go *)

Module Proto.

(** Modelled from the spec: the constant [messageMaxConsecutiveEmptyReads]
    of message.go, which is not among the sources. The spec bounds the
    receive loop "by a max-consecutive-empty-reads guard"; the comment in
    [recvFill] says the technique is copied from [bufio.Reader], whose
    guard is 100. *)
Definition messageMaxConsecutiveEmptyReads : nat := 100.

(** Storing [data] in [buf] from [offset] on, as a [Read] into
    [buf[offset:]] does. *)
Definition splice (buf : list Byte.byte) (offset : Z) (data : list Byte.byte)
  : list Byte.byte :=
  firstn (Z.to_nat offset) buf ++ data
    ++ skipn (Z.to_nat offset + length data) buf.

(** The loop of [recvBody]: [for n > len(bytes) { bytes = make([]byte,
    len(bytes)*2) }]. [None] when [fuel] passes were not enough. *)
Fixpoint grow (fuel : nat) (n : Z) (bytes : list Byte.byte)
  : option (list Byte.byte) :=
  if n >? len bytes then
    match fuel with
    | O => None
    | S f => grow f n (make_bytes (len bytes * 2))
    end
  else Some bytes.

Section Protocol.
Context {N : Network}.

Record Protocol : Type := mkProtocol {
  version : Z;              (* uint64 *)
  conn : ConnT;
  netErr : option error
}.

Definition newProtocol (version0 : Z) (conn0 : ConnT) : Protocol :=
  mkProtocol version0 conn0 None.

Definition set_netErr (e : error) (p : Protocol) : Protocol :=
  mkProtocol (version p) (conn p) (Some e).

(** [recvFill]: at most [messageMaxConsecutiveEmptyReads] reads, until
    one stores something. The bytes stored stand for the [n] returned.
    A negative [n] cannot come out of [connRead]. *)
Fixpoint recvFill_loop (i : nat) (p : Protocol) (size : Z)
  : M (list Byte.byte + error) :=
  match i with
  | O => ret (inr ErrNoProgress)
  | S i' =>
      let! (data, err) := connRead (conn p) size in
      match err with
      | Some e => ret (inr e)
      | None => if 0 <? len data then ret (inl data)
                else recvFill_loop i' p size
      end
  end.

Definition recvFill (p : Protocol) (size : Z) : M (list Byte.byte + error) :=
  recvFill_loop messageMaxConsecutiveEmptyReads p size.

(** [recvPeek]: read until [buf] is full. Every pass stores at least one
    byte, so [length buf] passes are enough. *)
Fixpoint recvPeek_loop (fuel : nat) (p : Protocol) (buf : list Byte.byte)
         (offset : Z) : M (list Byte.byte * option error) :=
  if offset <? len buf then
    match fuel with
    | O => diverge
    | S f =>
        let! r := recvFill p (len buf - offset) in
        match r with
        | inr e => ret (buf, Some e)
        | inl data => recvPeek_loop f p (splice buf offset data)
                                    (offset + len data)
        end
    end
  else ret (buf, None).

Definition recvPeek (p : Protocol) (buf : list Byte.byte)
  : M (list Byte.byte * option error) :=
  recvPeek_loop (length buf) p buf 0.

Definition recvHeader (p : Protocol) (res : Message)
  : M (Message * option error) :=
  let! (h, err) := recvPeek p (header res) in
  let res := set_header h res in
  match err with
  | Some e => ret (res, Some e)
  | None =>
      ret (mkMessage (Uint32 h)
                     (byte_val (nth 4 h Byte.x00))
                     (byte_val (nth 5 h Byte.x00))
                     (Uint16 (skipn 6 h))
                     h (body res), None)
  end.

(** [recvBody]. The growth loop runs on [n] units of fuel, enough for
    every buffer that is not empty; on an empty one the loop of the
    source does not end. *)
Definition recvBody (p : Protocol) (res : Message)
  : M (Message * option error) :=
  let n := words res * messageWordSize in
  match grow (Z.to_nat n) n (Bytes (body res)) with
  | None => diverge
  | Some bytes =>
      let! (buf, err) := recvPeek p (firstn (Z.to_nat n) bytes) in
      ret (set_body_Bytes (buf ++ skipn (Z.to_nat n) bytes) res, err)
  end.

Definition recv (p : Protocol) (res : Message) : M (Message * option error) :=
  let res := reset res in
  let! (res, err) := recvHeader p res in
  match err with
  | Some e => ret (res, Some (ErrorfW "header: %w" e))
  | None =>
      let! (res, err) := recvBody p res in
      match err with
      | Some e => ret (res, Some (ErrorfW "body: %w" e))
      | None => ret (res, None)
      end
  end.

Definition sendHeader (p : Protocol) (req : Message) : M (option error) :=
  let! (n, err) := connWrite (conn p) (header req) in
  match err with
  | Some e => ret (Some e)
  | None => if n =? messageHeaderSize then ret None
            else ret (Some ErrShortWrite)
  end.

(** [sendBody]: the bytes below the cursor, which never passes the end
    of the buffer. *)
Definition sendBody (p : Protocol) (req : Message) : M (option error) :=
  let buf := firstn (Z.to_nat (Offset (body req))) (Bytes (body req)) in
  let! (n, err) := connWrite (conn p) buf in
  match err with
  | Some e => ret (Some e)
  | None => if n =? len buf then ret None else ret (Some ErrShortWrite)
  end.

Definition send (p : Protocol) (req : Message) : M (option error) :=
  let! err := sendHeader p req in
  match err with
  | Some e => ret (Some (ErrorfW "header: %w" e))
  | None =>
      let! err := sendBody p req in
      match err with
      | Some e => ret (Some (ErrorfW "body: %w" e))
      | None => ret None
      end
  end.

(** The deferred closure of [Call]: a [net.OpError] on the chain of the
    returned error is remembered. *)
Definition remember (err : option error) (p : Protocol) : Protocol :=
  match err with
  | None => p
  | Some e => match As_OpError e with
              | Some netErr0 => set_netErr netErr0 p
              | None => p
              end
  end.

(** [Protocol.Call]. The deferred calls run last registered first: the
    deadline reset, the closure that remembers the network error, the
    unlock. *)
Definition Call (ctx : Context) (request response : Message) (p : Protocol)
  : M (Protocol * Message * option error) :=
  Lock ;;;
  match netErr p with
  | Some e => Unlock ;;; ret (p, response, Some e)
  | None =>
      match Deadline ctx with
      | Some deadline => connSetDeadline (conn p) (Some deadline)
      | None => ret tt
      end ;;;
      let! (response, err) :=
        (let! err := send p request in
         match err with
         | Some e =>
             ret (response,
                  Some (ErrorfW "call %s (budget %s): send: %w" e))
         | None =>
             let! (response, err) := recv p response in
             match err with
             | Some e =>
                 ret (response,
                      Some (ErrorfW "call %s (budget %s): receive: %w" e))
             | None => ret (response, None)
             end
         end) in
      match Deadline ctx with
      | Some _ => connSetDeadline (conn p) None
      | None => ret tt
      end ;;;
      let p := remember err p in
      Unlock ;;;
      ret (p, response, err)
  end.

(** [Protocol.More]. *)
Definition More (ctx : Context) (response : Message) (p : Protocol)
  : M (Protocol * Message * option error) :=
  let! (response, err) := recv p response in
  ret (p, response, err).

(** The receive loop of [Interrupt], which ends at the first empty
    response or the first error; [fuel] bounds the responses read. *)
Fixpoint Interrupt_loop (fuel : nat) (p : Protocol) (response : Message)
  : M (Message * option error) :=
  match fuel with
  | O => diverge
  | S f =>
      let! (response, err) := recv p response in
      match err with
      | Some e =>
          ret (response, Some (ErrorfW "failed to receive response: %w" e))
      | None =>
          let (mtype0, _) := getHeader response in
          if mtype0 =? ResponseEmpty then ret (response, None)
          else Interrupt_loop f p response
      end
  end.

(** [Protocol.Interrupt]. *)
Definition Interrupt {NamedValue : Type} {codec : Codec NamedValue}
           (fuel : nat) (ctx : Context) (request response : Message)
           (p : Protocol)
  : M (Protocol * Message * Message * option error) :=
  Lock ;;;
  match Deadline ctx with
  | Some deadline => connSetDeadline (conn p) (Some deadline)
  | None => ret tt
  end ;;;
  let request := EncodeInterrupt 0 request in
  let! (response, err) :=
    (let! err := send p request in
     match err with
     | Some e =>
         ret (response,
              Some (ErrorfW "failed to send interrupt request: %w" e))
     | None => Interrupt_loop fuel p response
     end) in
  match Deadline ctx with
  | Some _ => connSetDeadline (conn p) None
  | None => ret tt
  end ;;;
  Unlock ;;;
  ret (p, request, response, err).

(** [Protocol.Close]. *)
Definition Close (p : Protocol) : M (option error) := connClose (conn p).

(** [DecodeNodeCompat]. *)
Definition DecodeNodeCompat {NamedValue : Type} {codec : Codec NamedValue}
           (protocol : Protocol) (response : Message)
  : (Z * string) + error :=
  if version protocol =? VersionLegacy then
    match DecodeNodeLegacy response with
    | inr err => inr err
    | inl address => inl (0, address)
    end
  else DecodeNode response.
End Protocol.

End Proto.
Export Proto.

(** ** The retry library: github.com/Rican7/retry *)

Module Retry.

Definition uint_max : Z := 2 ^ 64.

(** Wrap-around of a Go [int64] (and [time.Duration]). *)
Definition int64 (v : Z) : Z := (v + 2 ^ 63) mod 2 ^ 64 - 2 ^ 63.

Section Retry.
Context {N : Network}.

(** [strategy.Strategy]: asked before every attempt, the first one
    included, whether the attempt is to be made. *)
Definition Strategy : Type := Z -> M bool.

(** Modelled from the spec: [strategy.Limit] of the retry library, which
    is not part of the repository. Attempts are numbered from zero and
    [Limit(n)] lets the attempts below [n] through, which is the
    behaviour the increment in [makeRetryStrategies] compensates for;
    the spec has the loop run "until ctx cancelled or attempt > limit
    (when limit > 0)". *)
Definition Limit (attemptLimit : Z) : Strategy :=
  fun attempt => ret (attempt <? attemptLimit).

(** Modelled from the spec: [backoff.BinaryExponential], the factor
    times two to the attempt number ("delay doubles each attempt
    starting from a configured factor"), in a [time.Duration]. *)
Definition BinaryExponential (factor : Duration) (attempt : Z) : Duration :=
  int64 (factor * 2 ^ attempt).

(** The strategies are consulted in order, up to the first refusal. *)
Fixpoint shouldAttempt (attempt : Z) (strategies : list Strategy) : M bool :=
  match strategies with
  | [] => ret true
  | s :: rest =>
      let! ok := s attempt in
      if ok then shouldAttempt attempt rest else ret false
  end.

(** Modelled from the spec: [retry.Retry]. The action runs for attempt
    0, 1, 2, ... while it fails and the strategies agree; the last error
    is returned. [X] is the state the action closes over; [fuel] bounds
    the attempts. *)
Fixpoint Retry_loop {X : Type} (fuel : nat)
         (action : Z -> X -> M (X * option error))
         (strategies : list Strategy) (attempt : Z) (x : X)
         (err : option error) : M (X * option error) :=
  match fuel with
  | O => diverge
  | S f =>
      if (attempt =? 0) || bool_decide (is_Some err) then
        let! ok := shouldAttempt attempt strategies in
        if ok then
          let! (x, err) := action attempt x in
          Retry_loop f action strategies ((attempt + 1) mod uint_max) x err
        else ret (x, err)
      else ret (x, err)
  end.

Definition Retry {X : Type} (fuel : nat)
           (action : Z -> X -> M (X * option error))
           (strategies : list Strategy) (x : X) : M (X * option error) :=
  Retry_loop fuel action strategies 0 x None.

(** [makeRetryStrategies] of connector.go. *)
Definition makeRetryStrategies (factor cap : Duration) (limit : Z)
  : list Strategy :=
  let limit := (limit + 1) mod uint_max in
  let backoff := BinaryExponential factor in
  (if limit >? 1 then [Limit limit] else [])
    ++ [fun attempt =>
          (if attempt >? 0 then
             let duration := backoff attempt in
             let duration :=
               if (duration >? cap) || (duration <=? 0) then cap
               else duration in
             Sleep duration
           else ret tt) ;;;
          ret true].
End Retry.

End Retry.
Export Retry.

(** ** The leader connector: internal/protocol/connector.go *)

Module Connector.

(** [sort.Slice] on the server list, an operation of the Go library. *)
Class Sorter : Type := {
  sort_Slice : (NodeInfo -> NodeInfo -> bool) -> list NodeInfo -> list NodeInfo
}.

(** What the Go library promises of [sort.Slice] for a comparison such as
    the one by role: the elements are kept, and no element comes before
    one it is less than. *)
Definition sorts (less : NodeInfo -> NodeInfo -> bool)
           (sort : list NodeInfo -> list NodeInfo) : Prop :=
  forall l, Permutation l (sort l)
            /\ Sorted (fun a b => less b a = false) (sort l).

(** What the insertion sort that the Go library runs on slices of up to
    twelve elements computes: each element in turn is placed below the
    first element of the sorted part that it is less than. *)
Fixpoint insert_sorted {A : Type} (less : A -> A -> bool) (x : A)
         (sorted : list A) : list A :=
  match sorted with
  | [] => [x]
  | y :: rest => if less x y then x :: y :: rest
                 else y :: insert_sorted less x rest
  end.

Definition insertionSort {A : Type} (less : A -> A -> bool) (l : list A)
  : list A :=
  fold_left (fun sorted x => insert_sorted less x sorted) l [].

Record Config : Type := mkConfig {
  DialTimeout : Duration;
  AttemptTimeout : Duration;
  BackoffFactor : Duration;
  BackoffCap : Duration;
  RetryLimit : Z              (* uint *)
}.

Record Connector : Type := mkConnector {
  id : Z;                     (* uint64 *)
  config : Config
}.

Definition second : Duration := 1000000000.
Definition millisecond : Duration := 1000000.

(** [NewConnector]: the defaults of the configuration. *)
Definition NewConnector (id0 : Z) (config0 : Config) : Connector :=
  mkConnector id0
    (mkConfig
       (if DialTimeout config0 =? 0 then 5 * second else DialTimeout config0)
       (if AttemptTimeout config0 =? 0 then 15 * second
        else AttemptTimeout config0)
       (if BackoffFactor config0 =? 0 then 100 * millisecond
        else BackoffFactor config0)
       (if BackoffCap config0 =? 0 then second else BackoffCap config0)
       (RetryLimit config0)).

Section Connect.
Context {N : Network} {S : Sorter}.
Context {NamedValue : Type} {codec : Codec NamedValue}.

(** [Handshake]: the version goes out as eight little-endian bytes. *)
Definition Handshake (ctx : Context) (conn0 : ConnT) (version0 : Z)
  : M (Protocol + error) :=
  let protocol := le_bytes 8 version0 in
  match Deadline ctx with
  | Some deadline => connSetDeadline conn0 (Some deadline)
  | None => ret tt
  end ;;;
  let! (n, err) := connWrite conn0 protocol in
  let! r :=
    match err with
    | Some e => ret (inr (ErrorfW "write handshake: %w" e))
    | None =>
        if n =? 8 then ret (inl (newProtocol version0 conn0))
        else ret (inr (Errorf "short handshake write: %w"))
    end in
  match Deadline ctx with
  | Some _ => connSetDeadline conn0 None
  | None => ret tt
  end ;;;
  ret r.

(** The test of [connectAttemptOne] for a server of before 1.0: a
    network error that is not a timeout, or an end of file. *)
Definition looksLegacy (err : error) : bool :=
  match As_OpError err with
  | Some neterr => negb (OpError_Timeout neterr)
  | None => false
  end || Is_EOF err.

(** [connectAttemptOne]: the protocol when the server is the leader,
    else the address of the leader it reports, else an error. *)
Definition connectAttemptOne (c : Connector) (ctx : Context)
           (address : string) (version0 : Z)
  : M (option Protocol * string * option error) :=
  let! dialCtx := WithTimeout ctx (DialTimeout (config c)) in
  let! r := dial dialCtx address in
  match r with
  | inr err => ret (None, "", Some (ErrorfW "dial: %w" err))
  | inl conn0 =>
      let! r := Handshake ctx conn0 version0 in
      match r with
      | inr e => let! _ := connClose conn0 in ret (None, "", Some e)
      | inl protocol =>
          let request := EncodeLeader (Init 16) in
          let response := Init 512 in
          let! (protocol, response, err) :=
            Call ctx request response protocol in
          match err with
          | Some e =>
              let! _ := Close protocol in
              if looksLegacy e then ret (None, "", Some errBadProtocol)
              else ret (None, "", Some e)
          | None =>
              match DecodeNodeCompat protocol response with
              | inr e => let! _ := Close protocol in ret (None, "", Some e)
              | inl (_, leader) =>
                  if String.eqb leader "" then
                    let! _ := Close protocol in ret (None, "", None)
                  else if String.eqb leader address then
                    let request := EncodeClient (id c) (reset request) in
                    let response := reset response in
                    let! (protocol, response, err) :=
                      Call ctx request response protocol in
                    match err with
                    | Some e =>
                        let! _ := Close protocol in ret (None, "", Some e)
                    | None =>
                        match DecodeWelcome response with
                        | inr e =>
                            let! _ := Close protocol in
                            ret (None, "", Some e)
                        | inl _ => ret (Some protocol, "", None)
                        end
                    end
                  else
                    let! _ := Close protocol in ret (None, leader, None)
              end
          end
      end
  end.

Definition lessRole (a b : NodeInfo) : bool := Role a <? Role b.

(** The first half of the body of the loop of [connectAttemptAll]: the
    attempt on the server with version one and, on [errBadProtocol], the
    second attempt with the legacy version. The version used last is
    returned with the outcome. *)
Definition attemptCandidate (c : Connector) (ctx : Context) (server : NodeInfo)
  : M (Z * option Protocol * string * option error) :=
  let version0 := VersionOne in
  let! (protocol, leader, err) :=
    connectAttemptOne c ctx (Address server) version0 in
  match err with
  | Some errBadProtocol =>
      let version0 := VersionLegacy in
      let! (protocol, leader, err) :=
        connectAttemptOne c ctx (Address server) version0 in
      ret (version0, protocol, leader, err)
  | _ => ret (version0, protocol, leader, err)
  end.

(** The second half, for a server that reports [leader]: one attempt on
    the reported leader. *)
Definition attemptReported (c : Connector) (ctx : Context) (leader : string)
           (version0 : Z) : M (unit + Protocol) :=
  let! ctx := WithTimeout ctx (AttemptTimeout (config c)) in
  let! (protocol, leader, err) :=
    connectAttemptOne c ctx leader version0 in
  match err, protocol with
  | Some _, _ => ret (inl tt)
  | None, None => ret (inl tt)
  | None, Some protocol => ret (inr protocol)
  end.

(** The body of the loop of [connectAttemptAll] for one server: [inl]
    when the loop goes on to the next server, [inr] when the function
    returns the protocol found. *)
Definition attemptServer (c : Connector) (ctx : Context) (server : NodeInfo)
  : M (unit + Protocol) :=
  let! ctx := WithTimeout ctx (AttemptTimeout (config c)) in
  let! (version0, protocol, leader, err) := attemptCandidate c ctx server in
  match err, protocol with
  | Some _, _ => ret (inl tt)
  | None, Some protocol => ret (inr protocol)
  | None, None =>
      if String.eqb leader "" then ret (inl tt)
      else attemptReported c ctx leader version0
  end.

Fixpoint attemptServers (c : Connector) (ctx : Context)
         (servers : list NodeInfo) : M (option Protocol * option error) :=
  match servers with
  | [] => ret (None, Some ErrNoAvailableLeader)
  | server :: rest =>
      let! r := attemptServer c ctx server in
      match r with
      | inr protocol => ret (Some protocol, None)
      | inl _ => attemptServers c ctx rest
      end
  end.

(** [connectAttemptAll]. *)
Definition connectAttemptAll (c : Connector) (ctx : Context)
  : M (option Protocol * option error) :=
  let! r := storeGet in
  match r with
  | inr err => ret (None, Some (ErrorfW "get servers: %w" err))
  | inl servers =>
      let servers := sort_Slice lessRole servers in
      attemptServers c ctx servers
  end.

(** [Connect]. The function given to [retry.Retry] assigns the variable
    [protocol] of [Connect]; a panic is a call that does not return. *)
Definition Connect (fuel : nat) (c : Connector) (ctx : Context)
  : M (option Protocol * option error) :=
  let strategies :=
    makeRetryStrategies (BackoffFactor (config c)) (BackoffCap (config c))
                        (RetryLimit (config c)) in
  let! (protocol, err) :=
    Retry fuel
      (fun attempt protocol =>
         let! done := ctxDone ctx in
         if done then ret (protocol, None)
         else
           let! (protocol, err) := connectAttemptAll c ctx in
           match err with
           | Some e => ret (protocol, Some e)
           | None => ret (protocol, None)
           end)
      strategies None in
  match err with
  | Some _ => ret (None, Some ErrNoAvailableLeader)
  | None =>
      let! done := ctxDone ctx in
      if done then ret (None, Some ErrNoAvailableLeader)
      else match protocol with
           | None => diverge
           | Some p => ret (Some p, None)
           end
  end.
(** What [connectAttemptOne] comes back with: a protocol, or an error, or
    the address of the leader reported, which is then neither empty nor
    the address dialed, or nothing at all. *)
Definition outcome_of (address : string)
           (r : option Protocol * string * option error) : Prop :=
  match r with
  | (Some _, leader, err) => leader = "" /\ err = None
  | (None, leader, Some _) => leader = ""
  | (None, leader, None) => leader = "" \/ leader <> address
  end.

(** What the dial of [connectAttemptOne] gives in a state: a connection
    or an error. *)
Definition dialed (c : Connector) (ctx : Context) (address : string)
           (st : St) : option (ConnT + error) :=
  match (let! dialCtx := WithTimeout ctx (DialTimeout (config c)) in
         dial dialCtx address) st with
  | Some (_, r) => Some r
  | None => None
  end.

(** The events of an attempt after the dial has given [conn0]: events on
    that connection alone, none of them its closing; then, unless the
    protocol returned is the one on [conn0], the closing of [conn0] as
    the last event. *)
Definition on_connection (conn0 : ConnT)
           (r : option Protocol * string * option error)
           (t : list (Event ConnT)) : Prop :=
  match r with
  | (Some p, _, _) => conn p = conn0 /\ Forall (on conn0) t
  | (None, _, _) =>
      exists t', t = (t' ++ [EvClose conn0])%list /\ Forall (on conn0) t'
  end.

(** The events of one [connectAttemptOne] whose dial gave [d]: the dial
    comes first. When it gave an error there is no other event and the
    error comes back wrapped; when it gave a connection, the rest is
    [on_connection] for that connection. *)
Definition attempt_events (address : string) (d : ConnT + error)
           (r : option Protocol * string * option error)
           (t : list (Event ConnT)) : Prop :=
  match d with
  | inr err =>
      r = (None, "", Some (ErrorfW "dial: %w" err)) /\ t = [EvDial address]
  | inl conn0 =>
      exists t', t = EvDial address :: t' /\ on_connection conn0 r t'
  end.

(** A record of events whose outline is made of dials only: the store was
    not asked and nothing slept. *)
Definition only_dials (t : list (Event ConnT)) : Prop :=
  outline t = map EvDial (dials t).

(** The events of the handling of one server by [connectAttemptAll]: the
    first address dialed is the one of the server, at most two more
    dials follow. *)
Definition probe_of (server : NodeInfo) (t : list (Event ConnT)) : Prop :=
  only_dials t
  /\ exists rest, dials t = Address server :: rest /\ (length rest <= 2)%nat.

(** The events of the handling of several servers in turn: dials only,
    which fall into one block for each server, the block of a server
    beginning with its address. *)
Definition probes (servers : list NodeInfo) (t : list (Event ConnT)) : Prop :=
  only_dials t
  /\ exists blocks : list (list string),
      dials t = concat blocks
      /\ Forall2 (fun server block =>
                    exists rest, block = Address server :: rest
                                 /\ (length rest <= 2)%nat)
                 servers blocks.

(** Ascending order of roles. *)
Definition by_role (servers : list NodeInfo) : Prop :=
  Sorted (fun a b => Role a <= Role b) servers.

(** A record of events in which every sleep lasts the cap, or a positive
    time below it. *)
Definition capped (cap : Duration) (t : list (Event ConnT)) : Prop :=
  Forall (fun e => match e with
                   | EvSleep d => d = cap \/ 0 < d <= cap
                   | _ => True
                   end) t.

End Connect.

End Connector.
Export Connector.

(** ** The driver: driver/driver.go *)

Module Driver.

(** Error codes. *)
Definition ErrBusy : Z := 5.
Definition ErrBusyRecovery : Z := Z.lor 5 (Z.shiftl 1 8).
Definition ErrBusySnapshot : Z := Z.lor 5 (Z.shiftl 2 8).
Definition errIoErr : Z := 10.
Definition errIoErrNotLeader : Z := Z.lor errIoErr (Z.shiftl 40 8).
Definition errIoErrLeadershipLost : Z := Z.lor errIoErr (Z.shiftl 41 8).
Definition errNotFound : Z := 12.
Definition errIoErrNotLeaderLegacy : Z := Z.lor errIoErr (Z.shiftl 32 8).
Definition errIoErrLeadershipLostLegacy : Z := Z.lor errIoErr (Z.shiftl 33 8).

Definition MaxUint8 : Z := 255.
Definition MaxUint32 : Z := 4294967295.

(** [driverError]: the checks in the order of the source. The code of an
    [ErrRequest] is a [uint64]; [int(pErr.Code)] reads it as an [int]. *)
Definition driverError (err : error) : error :=
  if match As_Errno err with
     | Some errno => negb (errno =? 0)
     | None => false
     end
  then ErrBadConn
  else if bool_decide (is_Some (As_OpError err)) then ErrBadConn
  else
    match As_ErrRequest err with
    | Some (Code, Description) =>
        if (Code =? errIoErrNotLeaderLegacy)
           || (Code =? errIoErrLeadershipLostLegacy)
           || (Code =? errIoErrNotLeader)
           || (Code =? errIoErrLeadershipLost)
        then ErrBadConn
        else if Code =? errNotFound then ErrBadConn
        else if Code =? 0 then ErrBadConn
        else Error (int64 Code) Description
    | None => if Is_EOF err then ErrBadConn else err
    end.

(** The codes of a failure response that mean the connection is of no
    more use: not-leader, leadership-lost, not-found, the two legacy
    values, and zero. *)
Definition dead_codes : list Z :=
  [errIoErrNotLeaderLegacy; errIoErrLeadershipLostLegacy;
   errIoErrNotLeader; errIoErrLeadershipLost; errNotFound; 0].

(** The decoders of response.go that the driver calls; [Rows] stands for
    [protocol.Rows]. *)
Class ResultCodec (Rows : Type) : Type := {
  DecodeResult : Message -> (Z * Z) + error;
  DecodeRows : Message -> Rows + error
}.

Section Driver.
Context {N : Network}.
Context {NamedValue : Type} {codec : Codec NamedValue}.
Context {Rows : Type} {rcodec : ResultCodec Rows}.

(** [Conn]: the protocol, the two messages and the database id. *)
Record Conn : Type := mkConn {
  c_protocol : Protocol;
  c_request : Message;
  c_response : Message;
  c_id : Z                  (* uint32 *)
}.

(** [Stmt]: it works on the protocol and the messages of its [Conn]. *)
Record Stmt : Type := mkStmt {
  s_protocol : Protocol;
  s_request : Message;
  s_response : Message;
  s_db : Z;                 (* uint32 *)
  s_id : Z                  (* uint32 *)
}.

(** The second half of [Conn.ExecContext] and [Conn.QueryContext]: the
    call with the encoded request and the decoding of the response,
    every error going through [driverError]. *)
Definition Conn_call {A : Type} (decode : Message -> A + error)
           (ctx : Context) (request : Message) (c : Conn)
  : M (Conn * (A + error)) :=
  let! (protocol, response, err) :=
    Call ctx request (c_response c) (c_protocol c) in
  let c := mkConn protocol request response (c_id c) in
  match err with
  | Some e => ret (c, inr (driverError e))
  | None =>
      match decode response with
      | inr e => ret (c, inr (driverError e))
      | inl a => ret (c, inl a)
      end
  end.

(** The same for [Stmt.ExecContext] and [Stmt.QueryContext]. *)
Definition Stmt_call {A : Type} (decode : Message -> A + error)
           (ctx : Context) (request : Message) (s : Stmt)
  : M (Stmt * (A + error)) :=
  let! (protocol, response, err) :=
    Call ctx request (s_response s) (s_protocol s) in
  let s := mkStmt protocol request response (s_db s) (s_id s) in
  match err with
  | Some e => ret (s, inr (driverError e))
  | None =>
      match decode response with
      | inr e => ret (s, inr (driverError e))
      | inl a => ret (s, inl a)
      end
  end.

(** [Conn.ExecContext]. *)
Definition Conn_ExecContext (ctx : Context) (query : string)
           (args : list NamedValue) (c : Conn)
  : M (Conn * ((Z * Z) + error)) :=
  if len args >? MaxUint32 then
    ret (c, inr (driverError (Errorf "too many parameters (%d)")))
  else
    let request :=
      if len args >? MaxUint8
      then EncodeExecSQLV1 (c_id c) query args (c_request c)
      else EncodeExecSQLV0 (c_id c) query args (c_request c) in
    Conn_call DecodeResult ctx request c.

(** [Conn.QueryContext], up to the decoding of the first response. *)
Definition Conn_QueryContext (ctx : Context) (query : string)
           (args : list NamedValue) (c : Conn)
  : M (Conn * (Rows + error)) :=
  if len args >? MaxUint32 then
    ret (c, inr (driverError (Errorf "too many parameters (%d)")))
  else
    let request :=
      if len args >? MaxUint8
      then EncodeQuerySQLV1 (c_id c) query args (c_request c)
      else EncodeQuerySQLV0 (c_id c) query args (c_request c) in
    Conn_call DecodeRows ctx request c.

(** [Stmt.ExecContext]. *)
Definition Stmt_ExecContext (ctx : Context) (args : list NamedValue)
           (s : Stmt) : M (Stmt * ((Z * Z) + error)) :=
  if len args >? MaxUint32 then
    ret (s, inr (driverError (Errorf "too many parameters (%d)")))
  else
    let request :=
      if len args >? MaxUint8
      then EncodeExecV1 (s_db s) (s_id s) args (s_request s)
      else EncodeExecV0 (s_db s) (s_id s) args (s_request s) in
    Stmt_call DecodeResult ctx request s.

(** [Stmt.QueryContext], up to the decoding of the first response. *)
Definition Stmt_QueryContext (ctx : Context) (args : list NamedValue)
           (s : Stmt) : M (Stmt * (Rows + error)) :=
  if len args >? MaxUint32 then
    ret (s, inr (driverError (Errorf "too many parameters (%d)")))
  else
    let request :=
      if len args >? MaxUint8
      then EncodeQueryV1 (s_db s) (s_id s) args (s_request s)
      else EncodeQueryV0 (s_db s) (s_id s) args (s_request s) in
    Stmt_call DecodeRows ctx request s.

(** The gate on the number of arguments, for an entry point [run] whose
    request has the type [kind] and begins with the fields [fields], and
    which hands the encoded request to [go]. Above [MaxUint32] the error
    comes back and nothing in the world or in the connection has
    changed. Above [MaxUint8] the request handed over is the fields
    followed by the arguments as [putNamedValues32] writes them, the
    writer of message.go with the 32-bit count, under a header of type
    [kind] and schema 1, in the fields and in the header bytes. Else it
    is the fields followed by the arguments as [putNamedValues] writes
    them, the writer with the 8-bit count, under a header of type [kind]
    and schema 0. *)
Definition gated {C A : Type}
           (run : list NamedValue -> C -> M (C * (A + error)))
           (kind : Z) (fields : C -> Message)
           (go : Message -> C -> M (C * (A + error))) : Prop :=
  forall (args : list NamedValue) (c : C) (st : St),
    (MaxUint32 < len args ->
     run args c st = Some (st, (c, inr (Errorf "too many parameters (%d)"))))
    /\ (MaxUint8 < len args <= MaxUint32 ->
        let request := putHeader kind 1 (putNamedValues32 args (fields c)) in
        run args c st = go request c st
        /\ mtype request = kind
        /\ schema request = 1
        /\ nth 4 (header request) Byte.x00 = byte_of kind
        /\ nth 5 (header request) Byte.x00 = Byte.x01)
    /\ (len args <= MaxUint8 ->
        let request := putHeader kind 0 (putNamedValues args (fields c)) in
        run args c st = go request c st
        /\ mtype request = kind
        /\ schema request = 0
        /\ nth 4 (header request) Byte.x00 = byte_of kind
        /\ nth 5 (header request) Byte.x00 = Byte.x00).
End Driver.

End Driver.
Export Driver.

(** ** The YAML node store: client/store.go *)

Module Store.

(** A slice of [NodeInfo] is a reference to its backing array: two slices
    that are the same reference see each other's writes. The heap holds
    the arrays, a reference is an index into it. *)
Abbreviation ref := nat (only parsing).
Abbreviation Heap := (list (list NodeInfo)) (only parsing).

(** [yaml.Marshal] and [renameio.WriteFile], operations of libraries, on a
    file system [FS]. *)
Class Files : Type := {
  FS : Type;
  yaml_Marshal : list NodeInfo -> list Byte.byte + error;
  renameio_WriteFile : string -> list Byte.byte -> FS -> FS * option error
}.

Section YamlNodeStore.
Context {F : Files}.

Record YamlNodeStore : Type := mkYamlNodeStore {
  path : string;
  servers : ref
}.

Record Mem : Type := mkMem { heap : Heap; fs : FS }.

(** The elements of a slice. *)
Definition deref (h : Heap) (r : ref) : list NodeInfo := default [] (h !! r).

(** [make] followed by [copy]: a new array with the same elements. *)
Definition alloc (l : list NodeInfo) (h : Heap) : Heap * ref :=
  ((h ++ [l])%list, length h).

(** [slice[i] = v]: a write through a reference. Out of range the Go
    statement panics: no heap comes out. *)
Definition store_elem (r : ref) (i : nat) (v : NodeInfo) (h : Heap)
  : option Heap :=
  match h !! r with
  | Some l => if bool_decide (i < length l)%nat
              then Some (<[r := <[i := v]> l]> h)
              else None
  | None => None
  end.

(** [YamlNodeStore.Get]. *)
Definition Get (s : YamlNodeStore) (m : Mem) : Mem * (ref * option error) :=
  let '(h, ret0) := alloc (deref (heap m) (servers s)) (heap m) in
  (mkMem h (fs m), (ret0, None)).

(** [YamlNodeStore.Set]. *)
Definition Set_ (s : YamlNodeStore) (servers0 : ref) (m : Mem)
  : YamlNodeStore * Mem * option error :=
  match yaml_Marshal (deref (heap m) servers0) with
  | inr err => (s, m, Some err)
  | inl data =>
      let '(fs', err) := renameio_WriteFile (path s) data (fs m) in
      match err with
      | Some e => (s, mkMem (heap m) fs', Some e)
      | None => (mkYamlNodeStore (path s) servers0, mkMem (heap m) fs', None)
      end
  end.

(** What a [Get] on the store would see: the list the store holds. *)
Definition held (s : YamlNodeStore) (m : Mem) : list NodeInfo :=
  deref (heap m) (servers s).
End YamlNodeStore.

End Store.

(** ** A scripted world for the examples *)

Module Sim.

(** A cluster as the client sees it: the clock, the moment the caller
    cancels, the servers the store lists, the addresses that refuse a
    connection, the connections that fail on write, and for each address
    the bytes the server answers with. A connection is named by the
    address dialed. *)
Record cluster : Type := mkWorld {
  clock : Time;
  cancel_at : option Time;
  listed : list NodeInfo;
  refusing : list string;
  write_fails : list string;
  answers : list (string * list Byte.byte)
}.

Definition refused : error :=
  OpError "dial" (SyscallError "connect" (Errno 111)).

Definition reset_by_peer (op : string) : error :=
  OpError op (SyscallError op (Errno 104)).

Fixpoint lookup_answer (c : string) (a : list (string * list Byte.byte))
  : list Byte.byte :=
  match a with
  | [] => []
  | (c', bs) :: rest => if String.eqb c c' then bs else lookup_answer c rest
  end.

Fixpoint consume (c : string) (n : nat) (a : list (string * list Byte.byte))
  : list (string * list Byte.byte) :=
  match a with
  | [] => []
  | (c', bs) :: rest => if String.eqb c c' then (c', skipn n bs) :: rest
                        else (c', bs) :: consume c n rest
  end.

Definition with_answers (a : list (string * list Byte.byte)) (w : cluster)
  : cluster :=
  mkWorld (clock w) (cancel_at w) (listed w) (refusing w) (write_fails w) a.

Definition mem_string (x : string) (l : list string) : bool :=
  existsb (String.eqb x) l.

#[export] Instance network : Network := {|
  World := cluster;
  ConnT := string;
  conn_Write c data w :=
    if mem_string c (write_fails w) then (w, (0, Some (reset_by_peer "write")))
    else (w, (len data, None));
  conn_Read c size w :=
    let bs := firstn (Z.to_nat size) (lookup_answer c (answers w)) in
    match bs with
    | [] => (w, ([], Some EOF))
    | _ => (with_answers (consume c (length bs) (answers w)) w, (bs, None))
    end;
  conn_SetDeadline c t w := w;
  conn_Close c w := (w, None);
  Dial ctx address w :=
    if mem_string address (refusing w) then (w, inr refused)
    else (w, inl address);
  store_Get w := (w, inl (listed w));
  now w := clock w;
  sleep d w :=
    mkWorld (clock w + d) (cancel_at w) (listed w) (refusing w)
            (write_fails w) (answers w);
  caller_cancelled w :=
    match cancel_at w with
    | Some t => t <=? clock w
    | None => false
    end
|}.

#[export] Instance sorter : Sorter := {| sort_Slice := insertionSort |}.

(** A codec in the wire format of the spec, as far as the examples need
    it: integers little-endian, strings ended by a zero byte and padded to
    a word, a node response made of an id and an address. *)
Definition put (bs : list Byte.byte) (m : Message) : Message :=
  let off := Z.to_nat (Offset (body m)) in
  let old := Bytes (body m) in
  let grown := (old ++ repeat Byte.x00 (off + length bs - length old))%list in
  mkMessage (words m) (mtype m) (schema m) (extra m) (header m)
            (mkBuffer (firstn off grown ++ bs ++ skipn (off + length bs) grown)
                      (Offset (body m) + len bs)).

Definition pad8 (bs : list Byte.byte) : list Byte.byte :=
  (bs ++ repeat Byte.x00 (Z.to_nat ((- len bs) mod 8)))%list.

Fixpoint upto_nul (bs : list Byte.byte) : list Byte.byte :=
  match bs with
  | [] => []
  | b :: rest => if Byte.eqb b Byte.x00 then [] else b :: upto_nul rest
  end.

Definition ResponseNode : Z := 1.
Definition ResponseWelcome : Z := 2.

Definition decodeFailure (m : Message) : error :=
  ErrRequest (le_uint 8 (Bytes (body m)))
             (string_of_list_byte (upto_nul (skipn 8 (Bytes (body m))))).

#[export] Instance codec : Codec Z := {|
  putUint32 v := put (le_bytes 4 v);
  putUint64 v := put (le_bytes 8 v);
  putString s := put (pad8 (list_byte_of_string s ++ [Byte.x00]));
  putNamedValues vs m :=
    fold_left (fun m v => put (le_bytes 8 v) m) vs
              (put (pad8 (le_bytes 1 (len vs))) m);
  putNamedValues32 vs m :=
    fold_left (fun m v => put (le_bytes 8 v) m) vs
              (put (pad8 (le_bytes 4 (len vs))) m);
  DecodeNode m :=
    if mtype m =? ResponseFailure then inr (decodeFailure m)
    else if mtype m =? ResponseNode then
      inl (le_uint 8 (Bytes (body m)),
           string_of_list_byte (upto_nul (skipn 8 (Bytes (body m)))))
    else inr (Errorf "decode %s: unexpected type %d");
  DecodeNodeLegacy m :=
    if mtype m =? ResponseFailure then inr (decodeFailure m)
    else if mtype m =? ResponseNode then
      inl (string_of_list_byte (upto_nul (Bytes (body m))))
    else inr (Errorf "decode %s: unexpected type %d");
  DecodeWelcome m :=
    if mtype m =? ResponseFailure then inr (decodeFailure m)
    else if mtype m =? ResponseWelcome then inl (le_uint 8 (Bytes (body m)))
    else inr (Errorf "decode %s: unexpected type %d")
|}.

#[export] Instance rcodec : ResultCodec (list Z) := {|
  DecodeResult m :=
    if mtype m =? ResponseFailure then inr (decodeFailure m)
    else inl (le_uint 8 (Bytes (body m)),
              le_uint 8 (skipn 8 (Bytes (body m))));
  DecodeRows m :=
    if mtype m =? ResponseFailure then inr (decodeFailure m)
    else inl []
|}.

(** A response on the wire: the header, then the body. *)
Definition wire (mtype0 : Z) (body0 : list Byte.byte) : list Byte.byte :=
  (le_bytes 4 (len body0 / 8) ++ [byte_of mtype0; Byte.x00]
     ++ le_bytes 2 0 ++ body0)%list.

(** The answer of a server to the leader request, and to the client
    registration. *)
Definition node_response (id0 : Z) (leader : string) : list Byte.byte :=
  wire ResponseNode
       (le_bytes 8 id0 ++ pad8 (list_byte_of_string leader ++ [Byte.x00]))%list.

Definition welcome_response : list Byte.byte :=
  wire ResponseWelcome (le_bytes 8 15000).

Definition empty_response : list Byte.byte := wire ResponseEmpty (le_bytes 8 0).

Definition start (w : cluster) : St := mkSt w [].

Definition quiet : cluster := mkWorld 0 None [] [] [] [].

(** A protocol on the connection to [address]. *)
Definition protocol_on (version0 : Z) (address : string) : Protocol :=
  newProtocol (N := network) version0 address.

(** A protocol that remembers a network error. *)
Definition broken_on (address : string) : Protocol :=
  set_netErr (reset_by_peer "write") (protocol_on 1 address).

(** A server with one more part of a result set to send. *)
Definition ResponseRows : Z := 7.

Definition streaming (address : string) : cluster :=
  with_answers [(address, wire ResponseRows (le_bytes 8 1))] quiet.

(** A response of three words whose header has been read into a message
    with a buffer of eight bytes. *)
Definition three_words : Message :=
  mkMessage 3 ResponseNode 0 0
            (le_bytes 4 3 ++ [Byte.x01; Byte.x00; Byte.x00; Byte.x00])
            (mkBuffer (make_bytes 8) 0).

End Sim.

(** ** A scripted file system for the examples *)

Module SimFiles.
Import Store.

(** Files by path. A list with a server without address does not
    marshal; a write to the empty path fails. *)
#[export] Instance files : Files := {|
  FS := list (string * list Byte.byte);
  yaml_Marshal l :=
    if existsb (fun n => String.eqb (Address n) "") l
    then inr (Errorf "yaml: cannot marshal")
    else inl (flat_map (fun n => list_byte_of_string (Address n)) l);
  renameio_WriteFile path0 data fs0 :=
    if String.eqb path0 "" then (fs0, Some (Errorf "open : no such file"))
    else ((path0, data) :: fs0, None)
|}.

Definition n1 : NodeInfo := mkNodeInfo 1 "1.2.3.4:666" Voter.
Definition n2 : NodeInfo := mkNodeInfo 2 "5.6.7.8:666" StandBy.
Definition anonymous : NodeInfo := mkNodeInfo 3 "" Spare.

(** A store holding [n1], and a caller's slice holding [anonymous]. *)
Definition store0 : YamlNodeStore := mkYamlNodeStore "cluster.yaml" 0%nat.
Definition mem0 : Mem := mkMem [[n1]; [anonymous]; [n2]] [].

End SimFiles.

(** ** More scripted worlds for the examples *)

Module Worlds.
Import Sim.

(** Three servers listed as spare, voter and stand-by. The voter refuses
    connections, the stand-by knows no leader, the spare reports [d],
    which is the leader and welcomes the client. *)
Definition spare_a : NodeInfo := mkNodeInfo 1 "a" Spare.
Definition voter_b : NodeInfo := mkNodeInfo 2 "b" Voter.
Definition standby_c : NodeInfo := mkNodeInfo 3 "c" StandBy.

Definition redirecting : cluster :=
  mkWorld 0 None [spare_a; voter_b; standby_c] ["b"] []
          [("a", node_response 1 "d");
           ("d", (node_response 4 "d" ++ welcome_response)%list);
           ("c", node_response 3 "")].

(** The same cluster for a caller who has cancelled. *)
Definition cancelled : cluster :=
  mkWorld 0 (Some 0) [spare_a; voter_b; standby_c] ["b"] []
          [("a", node_response 1 "d");
           ("d", (node_response 4 "d" ++ welcome_response)%list);
           ("c", node_response 3 "")].

(** A connector with the default configuration and the given limit of
    retries. *)
Definition connector (limit : Z) : Connector :=
  NewConnector 0 (mkConfig 0 0 0 0 limit).

(** The context of the handling of one server, and the state the
    [redirecting] cluster is in after the attempt on the spare. *)
Definition attempt_ctx : Context := mkContext (Some 15000000000).

Definition after_spare : St :=
  Eval vm_compute in
    match attemptCandidate (connector 0) attempt_ctx spare_a
                           (start redirecting) with
    | Some (st, _) => st
    | None => start redirecting
    end.

(** A server that has one part of a result set still to send and then
    acknowledges the interrupt with an empty response. *)
Definition draining : cluster :=
  with_answers [("a", (wire ResponseRows (le_bytes 8 1) ++ empty_response)%list)]
               quiet.

(** A world in which every dial is refused, every read stores nothing
    and nobody cancels; the state is the clock. *)
#[export] Instance deserted : Network := {|
  World := Z;
  ConnT := string;
  conn_Write c data w := (w, (len data, None));
  conn_Read c size w := (w, ([], None));
  conn_SetDeadline c t w := w;
  conn_Close c w := (w, None);
  Dial ctx address w := (w, inr refused);
  store_Get w := (w, inl [voter_b]);
  now w := w;
  sleep d w := w + d;
  caller_cancelled w := false
|}.

(** A protocol in the deserted world, and the state at time zero. *)
Definition lonely : Protocol (N := deserted) :=
  mkProtocol (N := deserted) 1 "a" None.

Definition dawn : St (N := deserted) := mkSt (N := deserted) 0 [].

End Worlds.

(** ** Driver values *)

Module Values.

(** [driver.NamedValue] over the values [V] of the driver. *)
Record NamedValue (V : Type) : Type := mkNamedValue {
  Name : string;
  Ordinal : Z;          (* int *)
  Value : V
}.
Arguments mkNamedValue {V} _ _ _.
Arguments Name {V} _.
Arguments Ordinal {V} _.
Arguments Value {V} _.

(** [valuesToNamedValues]: the value at index [i] gets the ordinal
    [i + 1] and no name. *)
Definition valuesToNamedValues {V : Type} (args : list V)
  : list (NamedValue V) :=
  imap (fun i value => mkNamedValue "" (Z.of_nat i + 1) value) args.

End Values.

(** ** The in-memory node store: internal/protocol/store.go *)

Module Inmem.

(** The store holds a slice, a reference into the heap of arrays as in
    [Store]. *)
Record InmemNodeStore : Type := mkInmemNodeStore { servers : nat }.

(** [NewInmemNodeStore]: a store holding a new, empty slice. *)
Definition NewInmemNodeStore (h : list (list NodeInfo))
  : list (list NodeInfo) * InmemNodeStore :=
  ((h ++ [[]])%list, mkInmemNodeStore (length h)).

(** [InmemNodeStore.Get]: a new array with the elements held. *)
Definition Get (i : InmemNodeStore) (h : list (list NodeInfo))
  : list (list NodeInfo) * (nat * option error) :=
  ((h ++ [default [] (h !! servers i)])%list, (length h, None)).

(** [InmemNodeStore.Set]: the store keeps the slice it is given. *)
Definition Set_ (i : InmemNodeStore) (servers0 : nat)
  : InmemNodeStore * option error :=
  (mkInmemNodeStore servers0, None).

End Inmem.

(** * Properties *)

(** ** Error classification of the driver *)

Section DriverError.

Lemma As_Errno_wrapped (fs : list string) (c : Z) (d : string) :
  As_Errno (wrapped fs (ErrRequest c d)) = None.
Proof. induction fs as [|f fs IH]; simpl; auto. Qed.

Lemma As_OpError_wrapped (fs : list string) (c : Z) (d : string) :
  As_OpError (wrapped fs (ErrRequest c d)) = None.
Proof. induction fs as [|f fs IH]; simpl; auto. Qed.

Lemma As_ErrRequest_wrapped (fs : list string) (c : Z) (d : string) :
  As_ErrRequest (wrapped fs (ErrRequest c d)) = Some (c, d).
Proof. induction fs as [|f fs IH]; simpl; auto. Qed.

Lemma driverError_wrapped (fs : list string) (c : Z) (d : string) :
  driverError (wrapped fs (ErrRequest c d))
  = if bool_decide (c ∈ dead_codes) then ErrBadConn
    else Error (int64 c) d.
Proof.
  unfold driverError.
  rewrite As_Errno_wrapped, As_OpError_wrapped, As_ErrRequest_wrapped.
  rewrite bool_decide_eq_false_2 by (intros [x Hx]; discriminate).
  unfold dead_codes.
  repeat match goal with
         | |- context [?a =? ?b] => destruct (Z.eqb_spec a b)
         end; simpl;
    try (rewrite bool_decide_eq_true_2; [reflexivity | set_solver]).
  rewrite bool_decide_eq_false_2; [reflexivity|].
  rewrite !elem_of_cons, elem_of_nil. intuition.
Qed.

(** C1, as the claim has it, fails: the failure code "busy" comes back
    as an application error, not as the connection-dead signal. *)
Lemma driverError_busy_not_ErrBadConn :
  driverError (ErrRequest ErrBusy "database is locked")
  = Error 5 "database is locked"
  /\ driverError (ErrRequest ErrBusy "database is locked") <> ErrBadConn
  /\ driverError (ErrRequest ErrBusySnapshot "database is locked")
     <> ErrBadConn.
Proof. repeat split; vm_compute; discriminate. Qed.

(** C1, amended: a failure response with code not-leader,
    leadership-lost, not-found, one of the two legacy values or zero is
    the connection-dead signal; every other code, busy and
    busy-snapshot among them, comes back as an [Error] with the
    description and with the code read as an [int], which below 2^63 is
    the code itself. *)
Theorem driverError_failure_response
        (fs : list string) (code : Z) (desc : string) :
  (code ∈ dead_codes ->
   driverError (wrapped fs (ErrRequest code desc)) = ErrBadConn)
  /\ (code ∉ dead_codes ->
      driverError (wrapped fs (ErrRequest code desc))
      = Error (int64 code) desc
      /\ (0 <= code < 2 ^ 63 -> int64 code = code))
  /\ (ErrBusy ∉ dead_codes) /\ (ErrBusySnapshot ∉ dead_codes).
Proof.
  rewrite driverError_wrapped. repeat split.
  - intros H. rewrite bool_decide_eq_true_2; auto.
  - rewrite bool_decide_eq_false_2; auto.
  - intros Hr. unfold int64.
    rewrite Z.mod_small by lia. lia.
  - unfold dead_codes. rewrite !elem_of_cons, elem_of_nil.
    vm_compute. intuition discriminate.
  - unfold dead_codes. rewrite !elem_of_cons, elem_of_nil.
    vm_compute. intuition discriminate.
Qed.

Lemma driverError_failure_response_witness :
  driverError (wrapped ["call exec: receive: %w"]
                       (ErrRequest errIoErrNotLeader "not leader"))
  = ErrBadConn
  /\ driverError (ErrRequest 19 "UNIQUE constraint failed")
     = Error 19 "UNIQUE constraint failed".
Proof.
  split.
  - apply (driverError_failure_response ["call exec: receive: %w"]
             errIoErrNotLeader "not leader").
    unfold dead_codes. set_solver.
  - destruct (driverError_failure_response [] 19 "UNIQUE constraint failed")
      as (_ & H & _).
    destruct H as [H _].
    + unfold dead_codes. rewrite !elem_of_cons, elem_of_nil.
      vm_compute. intuition discriminate.
    + exact H.
Defined.

End DriverError.

(** ** The two encodings of the parameters *)

Section ParameterCount.
Context {N : Network}.
Context {NamedValue : Type} {codec : Codec NamedValue}.
Context {Rows : Type} {rcodec : ResultCodec Rows}.

Lemma putHeader_fields (t s : Z) (m : Message) :
  0 <= t < 256 ->
  0 <= s < 256 ->
  mtype (putHeader t s m) = t
  /\ schema (putHeader t s m) = s
  /\ nth 4 (header (putHeader t s m)) Byte.x00 = byte_of t
  /\ nth 5 (header (putHeader t s m)) Byte.x00 = byte_of s.
Proof.
  intros Ht Hs. unfold putHeader. simpl.
  rewrite (Z.mod_small t 256), (Z.mod_small s 256) by lia.
  repeat split; reflexivity.
Qed.

Ltac gate :=
  intros args c st;
  destruct (Z.gtb_spec (len args) MaxUint32) as [H32|H32];
  destruct (Z.gtb_spec (len args) MaxUint8) as [H8|H8];
  unfold MaxUint32, MaxUint8 in *;
  (split; [|split]); intros H; try lia;
  try reflexivity;
  (split; [reflexivity|]); apply putHeader_fields; vm_compute; split; congruence.

(** C8: each of the four Exec/Query entry points refuses more than
    2^32 - 1 arguments before anything is sent; it encodes more than 255
    arguments with the 32-bit count, the request being its fixed fields
    (database and SQL text, or database and statement) followed by the
    arguments as [putNamedValues32] writes them, under schema byte 1;
    and it encodes 255 arguments or fewer with the 8-bit count, the
    same fields followed by the arguments as [putNamedValues] writes
    them, under schema byte 0. In both cases the header has the request
    type of the entry point. *)
Theorem exec_query_parameter_count (ctx : Context) (query : string) :
  gated (Conn_ExecContext ctx query) RequestExecSQL
        (fun c => putString query (putUint64 (c_id c) (reset (c_request c))))
        (Conn_call DecodeResult ctx)
  /\ gated (Conn_QueryContext ctx query) RequestQuerySQL
           (fun c => putString query (putUint64 (c_id c) (reset (c_request c))))
           (Conn_call DecodeRows ctx)
  /\ gated (Stmt_ExecContext ctx) RequestExec
           (fun s => putUint32 (s_id s) (putUint32 (s_db s) (reset (s_request s))))
           (Stmt_call DecodeResult ctx)
  /\ gated (Stmt_QueryContext ctx) RequestQuery
           (fun s => putUint32 (s_id s) (putUint32 (s_db s) (reset (s_request s))))
           (Stmt_call DecodeRows ctx).
Proof.
  unfold Conn_ExecContext, Conn_QueryContext, Stmt_ExecContext,
    Stmt_QueryContext.
  split; [|split; [|split]]; unfold gated; gate.
Qed.
End ParameterCount.

Section ParameterCountExample.
Import Sim.

(** With 256 arguments the request of [Conn.ExecContext] has schema 1
    and, after the eight bytes of the database and the eight of the SQL
    text, the count 256 in four bytes; with 255 it has schema 0 and the
    count in the single byte 255. *)
Lemma exec_query_parameter_count_witness :
  let c := mkConn (protocol_on 1 "leader") (Init 4096) (Init 4096) 0 in
  let fields := putString "INSERT" (putUint64 0 (reset (Init 4096))) in
  let v1 := putHeader RequestExecSQL 1
              (putNamedValues32 (repeat 7 256%nat) fields) in
  let v0 := putHeader RequestExecSQL 0
              (putNamedValues (repeat 7 255%nat) fields) in
  (Conn_ExecContext Background "INSERT" (repeat 7 256%nat) c (start quiet)
   = Conn_call DecodeResult Background v1 c (start quiet)
   /\ schema v1 = 1
   /\ firstn 4 (skipn 16 (Bytes (body v1)))
      = [Byte.x00; Byte.x01; Byte.x00; Byte.x00])
  /\ (Conn_ExecContext Background "INSERT" (repeat 7 255%nat) c (start quiet)
      = Conn_call DecodeResult Background v0 c (start quiet)
      /\ schema v0 = 0
      /\ firstn 4 (skipn 16 (Bytes (body v0)))
         = [Byte.xff; Byte.x00; Byte.x00; Byte.x00]).
Proof.
  intros c fields v1 v0.
  destruct (exec_query_parameter_count (N := network) (codec := codec)
              (rcodec := rcodec) Background "INSERT") as [G _].
  split.
  - destruct (G (repeat 7 256%nat) c (start quiet)) as (_ & G1 & _).
    destruct G1 as (E & _ & Hs & _).
    { unfold len. rewrite repeat_length. unfold MaxUint8, MaxUint32. lia. }
    split; [exact E|]. split; [exact Hs|]. vm_compute. reflexivity.
  - destruct (G (repeat 7 255%nat) c (start quiet)) as (_ & _ & G0).
    destruct G0 as (E & _ & Hs & _).
    { unfold len. rewrite repeat_length. unfold MaxUint8. lia. }
    split; [exact E|]. split; [exact Hs|]. vm_compute. reflexivity.
Defined.
End ParameterCountExample.

(** ** The receive path: growth of the response buffer *)

Section Growth.
Context {N : Network}.

Lemma len_nonneg {A : Type} (l : list A) : 0 <= len l.
Proof. unfold len. lia. Qed.

Lemma len_make_bytes (n : Z) : 0 <= n -> len (make_bytes n) = n.
Proof. intros H. unfold len, make_bytes. rewrite repeat_length. lia. Qed.

(** With a buffer that is not empty the loop ends on any fuel of at
    least [n]: the capacity comes out as the old one doubled [k] times,
    [k] the least number that makes it sufficient. *)
Lemma grow_doubles (fuel : nat) (n : Z) (bytes : list Byte.byte) :
  0 < len bytes -> n - len bytes < Z.of_nat fuel ->
  exists (k : nat) (bytes' : list Byte.byte),
    grow fuel n bytes = Some bytes'
    /\ len bytes' = len bytes * 2 ^ Z.of_nat k
    /\ n <= len bytes'
    /\ (k = 0%nat -> bytes' = bytes)
    /\ (forall j : nat, (j < k)%nat -> len bytes * 2 ^ Z.of_nat j < n).
Proof.
  revert bytes. induction fuel as [|fuel IH]; intros bytes Hpos Hfuel.
  - exists 0%nat, bytes. simpl.
    destruct (Z.gtb_spec n (len bytes)); [lia|].
    repeat split; auto; try lia; intros j Hj; lia.
  - simpl. destruct (Z.gtb_spec n (len bytes)) as [Hgt|Hle].
    + destruct (IH (make_bytes (len bytes * 2))) as (k & b' & Hg & Hl & Hn & _ & Hmin).
      * rewrite len_make_bytes; lia.
      * rewrite len_make_bytes; lia.
      * rewrite len_make_bytes in Hl, Hmin by lia.
        exists (S k), b'. repeat split; auto.
        -- rewrite Hl. rewrite Nat2Z.inj_succ, Z.pow_succ_r by lia. lia.
        -- discriminate.
        -- intros [|j] Hj; [simpl; lia|].
           specialize (Hmin j ltac:(lia)).
           rewrite Nat2Z.inj_succ, Z.pow_succ_r by lia. lia.
    + exists 0%nat, bytes. repeat split; auto; try lia; intros j Hj; lia.
Qed.

(** On an empty buffer the doubling makes no progress: no amount of
    fuel ends the loop. *)
Lemma grow_empty_never_ends (fuel : nat) (n : Z) :
  0 < n -> grow fuel n [] = None.
Proof.
  intros Hn. induction fuel as [|fuel IH]; simpl.
  - destruct (Z.gtb_spec n (len (@nil Byte.byte))); [reflexivity|].
    unfold len in *. simpl in *. lia.
  - destruct (Z.gtb_spec n (len (@nil Byte.byte))); [|unfold len in *; simpl in *; lia].
    exact IH.
Qed.

(** A read on the connection, which on a [Network] returns, stores no
    more than the buffer holds and is recorded. *)
Lemma connRead_returns (c : ConnT) (size : Z) (st : St) :
  exists st' data err,
    connRead c size st = Some (st', (data, err))
    /\ trace st' = (trace st ++ [EvRead c size])%list
    /\ (length data <= Z.to_nat size)%nat.
Proof.
  unfold connRead. destruct (conn_Read c size (world st)) as [w [data err]].
  eexists _, _, _. split; [reflexivity|]. split; [reflexivity|].
  rewrite length_take. lia.
Qed.

(** The events of a receive: reads on the connection of the protocol. *)
Definition is_read (p : Protocol) (e : Event ConnT) : Prop :=
  exists size, e = EvRead (conn p) size.

Definition reads (p : Protocol) (st st' : St) : Prop :=
  exists t, trace st' = (trace st ++ t)%list /\ Forall (is_read p) t.

Lemma reads_refl (p : Protocol) (st : St) : reads p st st.
Proof. exists []. split; [rewrite app_nil_r; reflexivity | constructor]. Qed.

Lemma reads_trans (p : Protocol) (st1 st2 st3 : St) :
  reads p st1 st2 -> reads p st2 st3 -> reads p st1 st3.
Proof.
  intros (t1 & H1 & F1) (t2 & H2 & F2). exists (t1 ++ t2)%list. split.
  - rewrite H2, H1, app_assoc. reflexivity.
  - apply Forall_app; auto.
Qed.

Lemma reads_one (p : Protocol) (st st' : St) (size : Z) :
  trace st' = (trace st ++ [EvRead (conn p) size])%list -> reads p st st'.
Proof.
  intros H. exists [EvRead (conn p) size]. split; auto.
  repeat constructor. exists size. reflexivity.
Qed.

Lemma recvFill_loop_returns (i : nat) (p : Protocol) (size : Z) (st : St) :
  exists st' r,
    recvFill_loop i p size st = Some (st', r)
    /\ reads p st st'
    /\ (forall data, r = inl data ->
                     (0 < length data <= Z.to_nat size)%nat).
Proof.
  revert st. induction i as [|i IH]; intros st; simpl.
  - eexists _, _. split; [reflexivity|]. split; [apply reads_refl|].
    intros data H. discriminate.
  - unfold bind.
    destruct (connRead_returns (conn p) size st)
      as (st1 & data & err & Hr & Ht & Hl).
    rewrite Hr. destruct err as [e|].
    + eexists _, _. split; [reflexivity|].
      split; [eapply reads_one; eauto|]. intros d H. discriminate.
    + destruct (Z.ltb_spec 0 (len data)) as [Hpos|Hz].
      * eexists _, _. split; [reflexivity|].
        split; [eapply reads_one; eauto|].
        intros d H. injection H as <-. unfold len in Hpos. lia.
      * destruct (IH st1) as (st2 & r & Hl2 & Hr2 & Hd2).
        exists st2, r. split; [exact Hl2|]. split; [|exact Hd2].
        eapply reads_trans; [eapply reads_one; eauto | exact Hr2].
Qed.

Lemma splice_length (buf data : list Byte.byte) (offset : Z) :
  0 <= offset -> offset + len data <= len buf ->
  length (splice buf offset data) = length buf.
Proof.
  unfold splice, len. intros H0 H1.
  rewrite !length_app, length_take, length_drop. lia.
Qed.

(** [recvPeek] returns, and the buffer keeps its length. *)
Lemma recvPeek_loop_returns (fuel : nat) (p : Protocol)
      (buf : list Byte.byte) (offset : Z) (st : St) :
  0 <= offset -> len buf - offset <= Z.of_nat fuel ->
  exists st' buf' err,
    recvPeek_loop fuel p buf offset st = Some (st', (buf', err))
    /\ length buf' = length buf
    /\ reads p st st'.
Proof.
  revert buf offset st.
  induction fuel as [|fuel IH]; intros buf offset st H0 Hf; simpl.
  - destruct (Z.ltb_spec offset (len buf)); [lia|].
    eexists _, _, _. split; [reflexivity|]. split; [reflexivity|].
    apply reads_refl.
  - destruct (Z.ltb_spec offset (len buf)) as [Hlt|Hge].
    + unfold bind, recvFill.
      destruct (recvFill_loop_returns messageMaxConsecutiveEmptyReads p
                  (len buf - offset) st) as (st1 & r & Hr & Hrd & Hd).
      rewrite Hr. destruct r as [data|e].
      * specialize (Hd data eq_refl).
        assert (Hs : length (splice buf offset data) = length buf).
        { apply splice_length; unfold len in *; lia. }
        destruct (IH (splice buf offset data) (offset + len data) st1)
          as (st2 & buf' & err & Hl & Hlen & Hrd2).
        { unfold len. lia. }
        { unfold len in *. rewrite Hs. lia. }
        exists st2, buf', err. split; [exact Hl|].
        split; [congruence|]. eapply reads_trans; eauto.
      * eexists _, _, _. split; [reflexivity|]. split; [reflexivity|]. exact Hrd.
    + eexists _, _, _. split; [reflexivity|]. split; [reflexivity|].
      apply reads_refl.
Qed.

Lemma recvPeek_returns (p : Protocol) (buf : list Byte.byte) (st : St) :
  exists st' buf' err,
    recvPeek p buf st = Some (st', (buf', err))
    /\ length buf' = length buf
    /\ reads p st st'.
Proof.
  unfold recvPeek. apply recvPeek_loop_returns; unfold len; lia.
Qed.

(** C7: on a response whose header announces [words * 8] bytes,
    [recvBody] returns with a buffer whose capacity is the old one
    doubled [k] times, where [k] is the least number of doublings that
    makes it hold the body (none when it already does, so it never
    shrinks); the header and the fields read from it are as before. *)
Theorem recvBody_grows (p : Protocol) (res : Message) (st : St) :
  0 < len (Bytes (body res)) ->
  0 <= words res ->
  exists st' res' err (k : nat),
    recvBody p res st = Some (st', (res', err))
    /\ len (Bytes (body res')) = len (Bytes (body res)) * 2 ^ Z.of_nat k
    /\ words res * messageWordSize <= len (Bytes (body res'))
    /\ len (Bytes (body res)) <= len (Bytes (body res'))
    /\ (forall j : nat, (j < k)%nat ->
           len (Bytes (body res)) * 2 ^ Z.of_nat j
           < words res * messageWordSize)
    /\ words res' = words res /\ mtype res' = mtype res
    /\ schema res' = schema res /\ extra res' = extra res
    /\ header res' = header res.
Proof.
  intros Hcap Hw. unfold recvBody.
  set (n := words res * messageWordSize).
  assert (Hn : 0 <= n) by (unfold n, messageWordSize; lia).
  destruct (grow_doubles (Z.to_nat n) n (Bytes (body res)) Hcap)
    as (k & bytes & Hg & Hl & Hs & _ & Hmin); [lia|].
  rewrite Hg. unfold bind.
  destruct (recvPeek_returns p (firstn (Z.to_nat n) bytes) st)
    as (st1 & buf & err & Hr & Hlen & _).
  rewrite Hr.
  exists st1, (set_body_Bytes (buf ++ skipn (Z.to_nat n) bytes) res), err, k.
  split; [reflexivity|].
  assert (Hb : len (buf ++ skipn (Z.to_nat n) bytes) = len bytes).
  { unfold len in *. rewrite length_app, Hlen, length_take, length_drop. lia. }
  simpl. rewrite Hb, Hl. repeat split; auto; try lia.
  assert (0 < 2 ^ Z.of_nat k) by (apply Z.pow_pos_nonneg; lia). nia.
Qed.

(** The empty buffer is the one case left out: there the loop of
    [recvBody] doubles zero for ever and the call does not return. *)
Lemma recvBody_empty_buffer (p : Protocol) (res : Message) (st : St) :
  Bytes (body res) = [] -> 0 < words res -> recvBody p res st = None.
Proof.
  intros Hb Hw. unfold recvBody. rewrite Hb.
  rewrite grow_empty_never_ends; [reflexivity|].
  unfold messageWordSize. lia.
Qed.
End Growth.

Section GrowthExample.
Import Sim.

Lemma recvBody_grows_witness :
  exists st' res' err,
    recvBody (protocol_on 1 "a") three_words
             (start (with_answers [("a", make_bytes 24)] quiet))
    = Some (st', (res', err))
    /\ len (Bytes (body res')) = 32
    /\ words res' = 3 /\ header res' = header three_words.
Proof.
  destruct (recvBody_grows (protocol_on 1 "a") three_words
              (start (with_answers [("a", make_bytes 24)] quiet)))
    as (st' & res' & err & k & H & Hl & Hs & _ & Hmin & Hw & _ & _ & _ & Hh).
  - vm_compute. reflexivity.
  - vm_compute. discriminate.
  - exists st', res', err. split; [exact H|].
    split; [|split; assumption].
    vm_compute in H. injection H as _ <- _. reflexivity.
Defined.
End GrowthExample.

(** ** The call engine: what a call does to the connection *)

Section CallEngine.
Context {N : Network}.

Lemma bind_Some {A B : Type} (m : M A) (k : A -> M B) (st st' : St) (b : B) :
  bind m k st = Some (st', b)
  <-> exists st1 a, m st = Some (st1, a) /\ k a st1 = Some (st', b).
Proof.
  unfold bind. split.
  - destruct (m st) as [[st1 a]|] eqn:E; [|discriminate].
    intros H. exists st1, a. auto.
  - intros (st1 & a & -> & H). exact H.
Qed.

(** The events of an exchange: reads and writes on the connection of
    the protocol. *)
Definition is_io (p : Protocol) (e : Event ConnT) : Prop :=
  (exists size, e = EvRead (conn p) size)
  \/ (exists data, e = EvWrite (conn p) data).

Lemma is_read_io (p : Protocol) (t : list (Event ConnT)) :
  Forall (is_read p) t -> Forall (is_io p) t.
Proof.
  intros H. eapply Forall_impl; [exact H|]. intros e He. left. exact He.
Qed.

(** The events that set and reset the deadline of a context. *)
Definition deadline_set (ctx : Context) (p : Protocol) : list (Event ConnT) :=
  match Deadline ctx with
  | Some d => [EvSetDeadline (conn p) (Some d)]
  | None => []
  end.

Definition deadline_reset (ctx : Context) (p : Protocol)
  : list (Event ConnT) :=
  match Deadline ctx with
  | Some _ => [EvSetDeadline (conn p) None]
  | None => []
  end.

Lemma connWrite_returns (c : ConnT) (data : list Byte.byte) (st : St) :
  exists st' r,
    connWrite c data st = Some (st', r)
    /\ trace st' = (trace st ++ [EvWrite c data])%list.
Proof.
  unfold connWrite. destruct (conn_Write c data (world st)) as [w r].
  eexists _, _. split; reflexivity.
Qed.

(** [send] returns; it writes the header first and then, when that
    went well, the body. *)
Lemma send_returns (p : Protocol) (req : Message) (st : St) :
  exists st' err t,
    send p req st = Some (st', err)
    /\ trace st' = (trace st ++ EvWrite (conn p) (header req) :: t)%list
    /\ Forall (is_io p) t.
Proof.
  unfold send, sendHeader, sendBody, bind.
  destruct (connWrite_returns (conn p) (header req) st)
    as (st1 & [n1 e1] & H1 & T1).
  rewrite H1.
  assert (Hnil : trace st1
                 = (trace st ++ EvWrite (conn p) (header req) :: [])%list)
    by exact T1.
  destruct e1 as [e|].
  { simpl. exists st1, (Some (ErrorfW "header: %w" e)), [].
    split; [reflexivity|]. split; [exact Hnil|constructor]. }
  destruct (n1 =? messageHeaderSize); simpl.
  2:{ eexists _, _, []. split; [reflexivity|]. split; [exact Hnil|constructor]. }
  set (buf := firstn (Z.to_nat (Offset (body req))) (Bytes (body req))).
  destruct (connWrite_returns (conn p) buf st1) as (st2 & [n2 e2] & H2 & T2).
  rewrite H2.
  assert (Hone : trace st2
                 = (trace st ++ EvWrite (conn p) (header req)
                      :: [EvWrite (conn p) buf])%list).
  { rewrite T2, T1, <- app_assoc. reflexivity. }
  assert (Hio : Forall (is_io p) [EvWrite (conn p) buf]).
  { constructor; [right; exists buf; reflexivity | constructor]. }
  destruct e2 as [e|]; simpl.
  { eexists _, _, _. split; [reflexivity|]. split; [exact Hone|exact Hio]. }
  destruct (n2 =? len buf); simpl;
    eexists _, _, _; (split; [reflexivity|]); (split; [exact Hone|exact Hio]).
Qed.

Lemma reads_cons (p : Protocol) (st st1 st2 : St) (size : Z) :
  trace st1 = (trace st ++ [EvRead (conn p) size])%list ->
  reads p st1 st2 ->
  exists t, trace st2 = (trace st ++ EvRead (conn p) size :: t)%list
            /\ Forall (is_read p) t.
Proof.
  intros H1 (t & H2 & F). exists t. split; [|exact F].
  rewrite H2, H1, <- app_assoc. reflexivity.
Qed.

(** [recvFill] begins with a read of the size asked for. *)
Lemma recvFill_first (p : Protocol) (size : Z) (st : St) :
  exists st' r t,
    recvFill p size st = Some (st', r)
    /\ trace st' = (trace st ++ EvRead (conn p) size :: t)%list
    /\ Forall (is_read p) t.
Proof.
  unfold recvFill, messageMaxConsecutiveEmptyReads.
  set (i := 99%nat). change 100%nat with (S i).
  cbn [recvFill_loop]. unfold bind.
  destruct (connRead_returns (conn p) size st)
    as (st1 & data & err & Hr & Ht & _).
  rewrite Hr.
  destruct err as [e|].
  { eexists _, _, []. split; [reflexivity|]. split; [exact Ht|constructor]. }
  destruct (0 <? len data).
  { eexists _, _, []. split; [reflexivity|]. split; [exact Ht|constructor]. }
  destruct (recvFill_loop_returns i p size st1) as (st2 & r & Hl & Hrd & _).
  destruct (reads_cons p st st1 st2 size Ht Hrd) as (t & Htr & F).
  exists st2, r, t. auto.
Qed.

(** [recvPeek] on a buffer that is not empty begins with a read of the
    size of the buffer; all it does is read. *)
Lemma recvPeek_first (p : Protocol) (buf : list Byte.byte) (st : St) :
  0 < len buf ->
  exists st' buf' err t,
    recvPeek p buf st = Some (st', (buf', err))
    /\ length buf' = length buf
    /\ trace st' = (trace st ++ EvRead (conn p) (len buf) :: t)%list
    /\ Forall (is_read p) t.
Proof.
  intros Hpos. unfold recvPeek.
  destruct (length buf) as [|fuel] eqn:El; [unfold len in Hpos; lia|].
  cbn [recvPeek_loop].
  destruct (Z.ltb_spec 0 (len buf)); [|lia].
  unfold bind.
  destruct (recvFill_first p (len buf - 0) st) as (st1 & r & t1 & Hr & Ht & F1).
  rewrite Hr. replace (len buf - 0) with (len buf) in Ht by lia.
  destruct r as [data|e].
  - assert (Hd : (0 < length data <= Z.to_nat (len buf - 0))%nat).
    { destruct (recvFill_loop_returns messageMaxConsecutiveEmptyReads p
                  (len buf - 0) st) as (st1' & r' & Hr' & _ & Hd).
      unfold recvFill in Hr. rewrite Hr in Hr'. injection Hr' as <- <-.
      apply Hd. reflexivity. }
    assert (Hs : length (splice buf 0 data) = length buf).
    { apply splice_length; unfold len in *; lia. }
    destruct (recvPeek_loop_returns fuel p (splice buf 0 data)
                (0 + len data) st1) as (st2 & buf' & err & Hl & Hlen & t2 & Ht2 & F2).
    { unfold len. lia. }
    { unfold len in *. rewrite Hs. lia. }
    exists st2, buf', err, (t1 ++ t2)%list. split; [exact Hl|].
    split; [congruence|]. split.
    + rewrite Ht2, Ht, <- app_assoc. reflexivity.
    + apply Forall_app; auto.
  - exists st1, buf, (Some e), t1. auto.
Qed.

(** [recv] on a message whose buffer is not empty returns; it begins
    with a read of the eight bytes of the header, and all it does is
    read from the connection. *)
Lemma recv_returns (p : Protocol) (res : Message) (st : St) :
  0 < len (Bytes (body res)) ->
  exists st' res' err t,
    recv p res st = Some (st', (res', err))
    /\ trace st' = (trace st ++ EvRead (conn p) messageHeaderSize :: t)%list
    /\ Forall (is_read p) t.
Proof.
  intros Hcap. unfold recv, recvHeader, bind.
  destruct (recvPeek_first p (header (reset res)) st)
    as (st1 & h & err & t1 & Hp & Hlen & Ht & F1); [reflexivity|].
  change (len (header (reset res))) with messageHeaderSize in Ht.
  rewrite Hp. destruct err as [e|].
  { eexists _, _, _, t1. split; [reflexivity|]. auto. }
  unfold ret; cbv beta iota.
  match goal with
  | |- context [recvBody p ?m st1] =>
      destruct (recvBody_grows p m st1)
      as (st2 & res2 & err2 & k & Hb & _); [exact Hcap | |]
  end.
  { simpl. unfold Uint32, le_uint.
    generalize (firstn 4 h). intros l. induction l as [|b l IH]; simpl; [lia|].
    apply Z.lor_nonneg. split.
    - unfold byte_val. lia.
    - apply Z.shiftl_nonneg. exact IH. }
  rewrite Hb.
  assert (Hrd : reads p st1 st2).
  { unfold recvBody in Hb.
    match type of Hb with
    | context [grow ?f ?n ?b] => destruct (grow f n b) as [bytes|]; [|discriminate]
    end.
    unfold bind in Hb.
    match type of Hb with
    | context [recvPeek p ?b st1] =>
        destruct (recvPeek_returns p b st1) as (st3 & b3 & e3 & H3 & _ & R3)
    end.
    rewrite H3 in Hb. injection Hb as <- _ _. exact R3. }
  destruct Hrd as (t2 & Ht2 & F2).
  assert (Htr : trace st2
                = (trace st ++ EvRead (conn p) messageHeaderSize
                     :: (t1 ++ t2))%list).
  { rewrite Ht2, Ht, <- app_assoc. reflexivity. }
  assert (F : Forall (is_read p) (t1 ++ t2)) by (apply Forall_app; auto).
  destruct err2 as [e|]; unfold ret;
    eexists _, _, _, _; (split; [reflexivity|]); split; [exact Htr|exact F|exact Htr|exact F].
Qed.

(** With an error remembered, [Call] takes the lock, gives the error
    back and releases the lock: the world is as it was, no deadline was
    set, nothing was written or read. *)
Lemma Call_fails_fast (ctx : Context) (request response : Message)
      (p : Protocol) (e : error) (st : St) :
  netErr p = Some e ->
  Call ctx request response p st
  = Some (mkSt (world st) (trace st ++ [EvLock; EvUnlock]),
          (p, response, Some e)).
Proof.
  intros H. unfold Call, bind, Lock, Unlock, emit, ret. rewrite H.
  simpl. rewrite <- app_assoc. reflexivity.
Qed.

(** Without one, [Call] returns whenever the response buffer is not
    empty. Between taking and releasing the lock it sets the deadline
    of the context, writes the header of the request, goes on writing
    and reading, and resets the deadline; a [net.OpError] on the chain
    of the error it returns is remembered. *)
Lemma Call_exchange (ctx : Context) (request response : Message)
      (p : Protocol) (st : St) :
  netErr p = None ->
  0 < len (Bytes (body response)) ->
  exists st' response' err t,
    Call ctx request response p st
    = Some (st', (remember err p, response', err))
    /\ trace st'
       = (trace st ++ EvLock :: deadline_set ctx p
            ++ EvWrite (conn p) (header request) :: t
            ++ deadline_reset ctx p ++ [EvUnlock])%list
    /\ Forall (is_io p) t.
Proof.
  intros Hnil Hcap. unfold Call. rewrite Hnil.
  unfold bind at 1. unfold Lock, emit.
  set (s1 := mkSt (world st) (trace st ++ [EvLock])).
  unfold bind at 1.
  assert (Hd : exists s2,
             match Deadline ctx with
             | Some deadline => connSetDeadline (conn p) (Some deadline)
             | None => ret tt
             end s1 = Some (s2, tt)
             /\ trace s2 = (trace st ++ EvLock :: deadline_set ctx p)%list).
  { unfold deadline_set. destruct (Deadline ctx) as [d|].
    - eexists. split; [reflexivity|]. simpl. rewrite <- app_assoc. reflexivity.
    - eexists. split; [reflexivity|]. reflexivity. }
  destruct Hd as (s2 & -> & T2).
  unfold bind at 1. unfold bind at 1.
  destruct (send_returns p request s2) as (s3 & serr & t3 & -> & T3 & F3).
  assert (Hfin : forall (s4 : St) (t : list (Event ConnT)),
             trace s4 = (trace s2 ++ EvWrite (conn p) (header request) :: t)%list ->
             exists s5,
               match Deadline ctx with
               | Some _ => connSetDeadline (conn p) None
               | None => ret tt
               end s4 = Some (s5, tt)
               /\ trace (mkSt (world s5) (trace s5 ++ [EvUnlock]))
                  = (trace st ++ EvLock :: deadline_set ctx p
                       ++ EvWrite (conn p) (header request) :: t
                       ++ deadline_reset ctx p ++ [EvUnlock])%list).
  { intros s4 t T4. unfold deadline_reset. destruct (Deadline ctx) as [d|].
    - eexists. split; [reflexivity|]. simpl. rewrite T4, T2.
      repeat (rewrite <- app_assoc; simpl). reflexivity.
    - eexists. split; [reflexivity|]. simpl. rewrite T4, T2.
      repeat (rewrite <- app_assoc; simpl). reflexivity. }
  destruct serr as [e|].
  - unfold ret at 1. unfold bind at 1.
    destruct (Hfin s3 t3 T3) as (s5 & -> & T5).
    unfold bind, Unlock, emit, ret.
    eexists _, _, _, t3. split; [reflexivity|]. split; [exact T5|exact F3].
  - unfold bind at 1.
    destruct (recv_returns p response s3 Hcap)
      as (s4 & res4 & rerr & t4 & -> & T4 & F4).
    assert (T4' : trace s4
                  = (trace s2 ++ EvWrite (conn p) (header request)
                       :: (t3 ++ EvRead (conn p) messageHeaderSize :: t4))%list).
    { rewrite T4, T3. repeat (rewrite <- app_assoc; simpl). reflexivity. }
    assert (F : Forall (is_io p)
                       (t3 ++ EvRead (conn p) messageHeaderSize :: t4)).
    { apply Forall_app. split; [exact F3|]. constructor.
      - left. eexists. reflexivity.
      - apply is_read_io. exact F4. }
    destruct rerr as [e|]; unfold ret at 1; unfold bind at 1;
      destruct (Hfin s4 _ T4') as (s5 & -> & T5);
      unfold bind, Unlock, emit, ret;
      eexists _, _, _, _; (split; [reflexivity|]); split; [exact T5|exact F|exact T5|exact F].
Qed.

Lemma Call_remembers (ctx : Context) (request response response' : Message)
      (p p' : Protocol) (err : option error) (st st' : St) :
  netErr p = None ->
  Call ctx request response p st = Some (st', (p', response', err)) ->
  p' = remember err p.
Proof.
  intros Hnil H. unfold Call in H. rewrite Hnil in H.
  apply bind_Some in H as (s1 & [] & _ & H).
  apply bind_Some in H as (s2 & [] & _ & H).
  apply bind_Some in H as (s3 & [r e] & _ & H).
  apply bind_Some in H as (s4 & [] & _ & H).
  apply bind_Some in H as (s5 & [] & _ & H).
  unfold ret in H. injection H as _ <- _ <-. reflexivity.
Qed.

(** C2, amended: when a [Call] returns an error with a [net.OpError] on
    its chain, that [net.OpError] is stored in the protocol, and every
    later [Call] on the protocol returns it at once: the world is
    untouched and the only events are taking and releasing the lock.
    Errors of the connection without a [net.OpError] are not stored, see
    [Call_end_of_file_not_remembered]. *)
Theorem Call_sticky_failure
        (ctx : Context) (request response response' : Message)
        (p p' : Protocol) (err netErr0 : error) (st st' : St) :
  netErr p = None ->
  Call ctx request response p st = Some (st', (p', response', Some err)) ->
  As_OpError err = Some netErr0 ->
  netErr p' = Some netErr0
  /\ forall (ctx2 : Context) (request2 response2 : Message) (st2 : St),
      Call ctx2 request2 response2 p' st2
      = Some (mkSt (world st2) (trace st2 ++ [EvLock; EvUnlock]),
              (p', response2, Some netErr0)).
Proof.
  intros Hnil H Has.
  apply Call_remembers in H; [|exact Hnil].
  assert (Hp : netErr p' = Some netErr0).
  { subst p'. unfold remember. rewrite Has. reflexivity. }
  split; [exact Hp|].
  intros ctx2 request2 response2 st2. apply Call_fails_fast. exact Hp.
Qed.
End CallEngine.

Section CallExample.
Import Sim.

Lemma Call_sticky_failure_witness :
  exists st' p' response',
    Call Background (EncodeLeader (Init 16)) (Init 512) (protocol_on 1 "a")
         (start (mkWorld 0 None [] [] ["a"] []))
    = Some (st', (p', response',
                  Some (ErrorfW "call %s (budget %s): send: %w"
                          (ErrorfW "header: %w" (reset_by_peer "write")))))
    /\ netErr p' = Some (reset_by_peer "write")
    /\ Call Background (EncodeLeader (Init 16)) (Init 512) p' st'
       = Some (mkSt (world st') (trace st' ++ [EvLock; EvUnlock]),
               (p', Init 512, Some (reset_by_peer "write"))).
Proof.
  eexists _, _, _. split; [vm_compute; reflexivity|].
  match goal with
  | |- netErr ?p' = _ /\ Call _ _ _ _ ?st' = _ =>
      destruct (Call_sticky_failure Background (EncodeLeader (Init 16))
                  (Init 512) (Init 512) (protocol_on 1 "a") p'
                  (ErrorfW "call %s (budget %s): send: %w"
                     (ErrorfW "header: %w" (reset_by_peer "write")))
                  (reset_by_peer "write")
                  (start (mkWorld 0 None [] [] ["a"] [])) st')
      as [H1 H2]
  end.
  - reflexivity.
  - vm_compute. reflexivity.
  - reflexivity.
  - split; [exact H1|]. apply H2.
Defined.

(** C2, as the claim has it, fails: the server sends half a header and
    closes the connection, the [Call] fails on receive with [io.EOF],
    which has no [net.OpError] on its chain; nothing is remembered, and
    the next [Call] on the protocol takes the lock and writes its
    request to the connection again. *)
Lemma Call_end_of_file_not_remembered :
  exists st1 p1 response1 st2 response2 err2 t,
    Call Background (EncodeLeader (Init 16)) (Init 512) (protocol_on 1 "a")
         (start (with_answers
                   [("a", [Byte.x01; Byte.x00; Byte.x00; Byte.x00])] quiet))
    = Some (st1, (p1, response1,
                  Some (ErrorfW "call %s (budget %s): receive: %w"
                          (ErrorfW "header: %w" EOF))))
    /\ netErr p1 = None
    /\ Call Background (EncodeLeader (Init 16)) (Init 512) p1 st1
       = Some (st2, (p1, response2, err2))
    /\ trace st2
       = (trace st1
            ++ EvLock :: EvWrite "a" (header (EncodeLeader (Init 16))) :: t)%list.
Proof.
  eexists _, _, _, _, _, _, _.
  split; [vm_compute; reflexivity|].
  split; [reflexivity|].
  split; [vm_compute; reflexivity|].
  vm_compute. reflexivity.
Qed.
End CallExample.

(** ** [More]: a bare receive *)

Section More.
Context {N : Network}.
Context {NamedValue : Type} {codec : Codec NamedValue}.

(** [More] returns whenever the response buffer is not empty, with the
    protocol it was given; it begins by reading the header and all it
    does is read. *)
Lemma More_returns
      (ctx : Context) (response : Message) (p : Protocol) (st : St) :
  0 < len (Bytes (body response)) ->
  exists st' response' err t,
    More ctx response p st = Some (st', (p, response', err))
    /\ trace st' = (trace st ++ EvRead (conn p) messageHeaderSize :: t)%list
    /\ Forall (is_read p) t.
Proof.
  intros Hcap. unfold More, bind.
  destruct (recv_returns p response st Hcap)
    as (st' & res' & err & t & -> & Ht & F).
  exists st', res', err, t. unfold ret. auto.
Qed.

(** C9: [More] is a receive and nothing else. Whatever the protocol
    remembers, it reads from the connection, beginning with the header;
    it neither takes the lock nor sets a deadline, all its events being
    reads; and it returns the protocol as it was, so that a network
    error it meets is not remembered and a later [Call] on a protocol
    without a remembered error goes to the connection again. *)
Theorem More_is_a_bare_receive
        (ctx : Context) (response : Message) (p : Protocol) (st : St) :
  0 < len (Bytes (body response)) ->
  (exists st' response' err t,
      More ctx response p st = Some (st', (p, response', err))
      /\ trace st' = (trace st ++ EvRead (conn p) messageHeaderSize :: t)%list
      /\ Forall (is_read p) t)
  /\ (netErr p = None ->
      forall (ctx2 : Context) (request2 : Message) (st2 : St),
      exists st3 r t,
        Call ctx2 request2 response p st2 = Some (st3, r)
        /\ trace st3
           = (trace st2 ++ EvLock :: deadline_set ctx2 p
                ++ EvWrite (conn p) (header request2) :: t)%list).
Proof.
  intros Hcap. split.
  - apply More_returns. exact Hcap.
  - intros Hnil ctx2 request2 st2.
    destruct (Call_exchange ctx2 request2 response p st2 Hnil Hcap)
      as (st3 & res3 & err & t & Hc & Ht & _).
    eexists _, _, _. split; [exact Hc|]. exact Ht.
Qed.

(** [recv], when it returns, has only read from the connection. *)
Lemma recv_reads (p : Protocol) (res res' : Message) (err : option error)
      (st st' : St) :
  recv p res st = Some (st', (res', err)) ->
  reads p st st' /\ len (Bytes (body res)) <= len (Bytes (body res')).
Proof.
  unfold recv, recvHeader. intros H.
  apply bind_Some in H as (s1 & [r1 e1] & H1 & H).
  apply bind_Some in H1 as (s0 & [h e0] & Hp & H1).
  destruct (recvPeek_returns p (header (reset res)) st)
    as (s0' & h' & e' & Hp' & _ & R0).
  rewrite Hp in Hp'. injection Hp' as <- <- <-.
  assert (E1 : s1 = s0 /\ Bytes (body r1) = Bytes (body res)).
  { destruct e0; unfold ret in H1; injection H1 as <- <- _; auto. }
  destruct E1 as [-> Eb].
  destruct e1 as [e|].
  { unfold ret in H. injection H as <- <- _. rewrite Eb. split; [exact R0|lia]. }
  apply bind_Some in H as (s2 & [r2 e2] & Hb & H).
  assert (E2 : st' = s2 /\ res' = r2).
  { destruct e2; unfold ret in H; injection H as <- <- _; auto. }
  destruct E2 as [-> ->].
  unfold recvBody in Hb.
  destruct (grow _ _ (Bytes (body r1))) as [bytes|] eqn:Eg; [|discriminate].
  apply bind_Some in Hb as (s3 & [b3 e3] & Hp3 & Hb).
  match type of Hp3 with
  | recvPeek p ?b s0 = _ =>
      destruct (recvPeek_returns p b s0) as (s3' & b3' & e3' & Hp3' & Hl3 & R3)
  end.
  rewrite Hp3 in Hp3'. injection Hp3' as <- <- <-.
  unfold ret in Hb. injection Hb as <- <- _.
  split; [eapply reads_trans; eauto|].
  simpl. rewrite <- Eb.
  assert (Hg : len (Bytes (body r1)) <= len bytes).
  { clear - Eg. revert Eg. generalize (Bytes (body r1)) as b.
    generalize (Z.to_nat (words r1 * messageWordSize)) as fuel.
    generalize (words r1 * messageWordSize) as n.
    intros n fuel. induction fuel as [|fuel IH]; intros b; simpl.
    - destruct (n >? len b); [discriminate|]. intros [= ->]. lia.
    - destruct (Z.gtb_spec n (len b)); [|intros [= ->]; lia].
      intros Hg. apply IH in Hg.
      assert (0 <= len b) by apply len_nonneg.
      rewrite len_make_bytes in Hg by lia. lia. }
  unfold len in *. rewrite length_app, Hl3, length_take, length_drop. lia.
Qed.

Lemma Interrupt_loop_reads (fuel : nat) (p : Protocol)
      (response response' : Message) (err : option error) (st st' : St) :
  Interrupt_loop fuel p response st = Some (st', (response', err)) ->
  reads p st st'.
Proof.
  revert response st. induction fuel as [|fuel IH]; intros response st H.
  - discriminate.
  - simpl in H. apply bind_Some in H as (s1 & [r1 e1] & Hr & H).
    apply recv_reads in Hr as [Hr _].
    destruct e1 as [e|].
    + unfold ret in H. injection H as <- _ _. exact Hr.
    + destruct (mtype r1 =? ResponseEmpty).
      * unfold ret in H. injection H as <- _ _. exact Hr.
      * eapply reads_trans; [exact Hr|]. eapply IH. exact H.
Qed.

(** [Interrupt], like [Call], sets the deadline of its context after
    taking the lock and resets it before releasing the lock. *)
Lemma Interrupt_brackets_deadline
      (fuel : nat) (ctx : Context) (request response : Message)
      (p : Protocol) (st st' : St)
      (r : Protocol * Message * Message * option error) :
  Interrupt fuel ctx request response p st = Some (st', r) ->
  exists t,
    trace st' = (trace st ++ EvLock :: deadline_set ctx p ++ t
                   ++ deadline_reset ctx p ++ [EvUnlock])%list
    /\ Forall (is_io p) t.
Proof.
  unfold Interrupt. intros H.
  apply bind_Some in H as (s1 & [] & H1 & H).
  apply bind_Some in H as (s2 & [] & H2 & H).
  apply bind_Some in H as (s3 & [r3 e3] & H3 & H).
  apply bind_Some in H as (s4 & [] & H4 & H).
  apply bind_Some in H as (s5 & [] & H5 & H).
  unfold ret in H. injection H as <- _.
  unfold Lock, Unlock, emit in H1, H5.
  injection H1 as <-. injection H5 as <-.
  assert (T2 : trace s2 = (trace st ++ EvLock :: deadline_set ctx p)%list).
  { unfold deadline_set. destruct (Deadline ctx);
      [unfold connSetDeadline in H2|unfold ret in H2];
      injection H2 as <-; simpl; rewrite <- ?app_assoc; reflexivity. }
  assert (T4 : trace s4 = (trace s3 ++ deadline_reset ctx p)%list).
  { unfold deadline_reset. destruct (Deadline ctx);
      [unfold connSetDeadline in H4|unfold ret in H4];
      injection H4 as <-; simpl; rewrite ?app_nil_r; reflexivity. }
  assert (T3 : exists t, trace s3 = (trace s2 ++ t)%list /\ Forall (is_io p) t).
  { apply bind_Some in H3 as (s6 & e6 & Hs & H3).
    destruct (send_returns p (EncodeInterrupt 0 request) s2)
      as (s6' & e6' & t6 & Hs' & T6 & F6).
    rewrite Hs in Hs'. injection Hs' as <- <-.
    assert (F6' : Forall (is_io p)
                    (EvWrite (conn p) (header (EncodeInterrupt 0 request)) :: t6)).
    { constructor; [right; eexists; reflexivity | exact F6]. }
    destruct e6 as [e|].
    - unfold ret in H3. injection H3 as <- _ _. eexists. split; [exact T6|exact F6'].
    - apply Interrupt_loop_reads in H3 as (t7 & T7 & F7).
      eexists. split.
      + rewrite T7, T6, <- app_assoc. reflexivity.
      + apply Forall_app. split; [exact F6'|apply is_read_io; exact F7]. }
  destruct T3 as (t & T3 & F).
  exists t. split; [|exact F].
  simpl. rewrite T4, T3, T2. repeat (rewrite <- app_assoc; simpl). reflexivity.
Qed.

(** C6 fails for [More]: it does not look at its context. With a
    deadline it does what it does without one and the deadline of the
    connection is never set, where [Call] and [Interrupt] set and reset
    it. *)
Theorem More_applies_no_deadline
        (d : Time) (response : Message) (p : Protocol) (st : St) :
  0 < len (Bytes (body response)) ->
  More (mkContext (Some d)) response p st = More Background response p st
  /\ exists st' r t,
      More (mkContext (Some d)) response p st = Some (st', r)
      /\ trace st' = (trace st ++ t)%list
      /\ Forall (is_read p) t
      /\ forall t0, ~ In (EvSetDeadline (conn p) t0) t.
Proof.
  intros Hcap. split; [reflexivity|].
  destruct (More_returns (mkContext (Some d)) response p st Hcap)
    as (st' & res' & err & t & Hm & Ht & F).
  exists st', (p, res', err), (EvRead (conn p) messageHeaderSize :: t).
  split; [exact Hm|]. split; [exact Ht|].
  assert (F' : Forall (is_read p) (EvRead (conn p) messageHeaderSize :: t)).
  { constructor; [eexists; reflexivity | exact F]. }
  split; [exact F'|].
  intros t0 Hin. rewrite Forall_forall in F'.
  apply list_elem_of_In in Hin.
  destruct (F' _ Hin) as [size Hs]. discriminate.
Qed.
End More.

Section MoreExample.
Import Sim.

Lemma More_is_a_bare_receive_witness :
  exists st' response' err t,
    More Background (Init 4096) (broken_on "a") (start (streaming "a"))
    = Some (st', (broken_on "a", response', err))
    /\ trace st' = (EvRead "a" 8 :: t)%list
    /\ Forall (is_read (broken_on "a")) t.
Proof.
  apply (More_is_a_bare_receive Background (Init 4096)
           (broken_on "a") (start (streaming "a"))).
  vm_compute. reflexivity.
Defined.

Lemma More_applies_no_deadline_witness :
  exists st' r t,
    More (mkContext (Some 5)) (Init 4096) (protocol_on 1 "a")
         (start (streaming "a"))
    = Some (st', r)
    /\ trace st' = t
    /\ Forall (is_read (protocol_on 1 "a")) t
    /\ forall t0, ~ In (EvSetDeadline "a" t0) t.
Proof.
  apply (More_applies_no_deadline 5 (Init 4096)
           (protocol_on 1 "a") (start (streaming "a"))).
  vm_compute. reflexivity.
Defined.
End MoreExample.

(** ** The YAML node store *)

Section NodeStore.
Import Store.
Context {F : Files}.

(** [Set] keeps the slice it is given, it does not copy it: a later
    write through that slice is a write to the list the store holds. *)
Lemma Set_keeps_the_slice (s s' : YamlNodeStore) (r : ref) (m m' : Mem) :
  Set_ s r m = (s', m', None) -> servers s' = r /\ heap m' = heap m.
Proof.
  unfold Set_. destruct (yaml_Marshal _) as [data|e]; [|discriminate].
  destruct (renameio_WriteFile _ _ _) as [fs' [e|]]; [discriminate|].
  intros [= <- <-]. split; reflexivity.
Qed.

End NodeStore.

Section NodeStoreExample.
Import Store SimFiles.

End NodeStoreExample.

(** ** The connector: what an attempt does *)

Section Attempts.
Context {N : Network}.

Lemma outline_app (t1 t2 : list (Event ConnT)) :
  outline (t1 ++ t2) = (outline t1 ++ outline t2)%list.
Proof. unfold outline. apply flat_map_app. Qed.

Lemma dials_app (t1 t2 : list (Event ConnT)) :
  dials (t1 ++ t2) = (dials t1 ++ dials t2)%list.
Proof. unfold dials. apply flat_map_app. Qed.

Lemma store_gets_app (t1 t2 : list (Event ConnT)) :
  store_gets (t1 ++ t2) = (store_gets t1 + store_gets t2)%nat.
Proof. unfold store_gets. rewrite flat_map_app, length_app. reflexivity. Qed.

Lemma on_outline (c : ConnT) (t : list (Event ConnT)) :
  Forall (on c) t -> outline t = [] /\ dials t = [] /\ store_gets t = 0%nat.
Proof.
  induction 1 as [|e t He _ IH]; [auto|].
  destruct e; simpl in He; try contradiction; exact IH.
Qed.

Lemma io_on (p : Protocol) (t : list (Event ConnT)) :
  Forall (is_io p) t -> Forall (on (conn p)) t.
Proof.
  intros H. eapply Forall_impl; [exact H|].
  intros e [[n ->]|[d ->]]; reflexivity.
Qed.

Lemma runs_ret {A : Type} (a : A) (Q : A -> list (Event ConnT) -> Prop) :
  Q a [] -> runs (ret a) Q.
Proof.
  intros H st. exists st, a, []. rewrite app_nil_r. auto.
Qed.

Lemma runs_bind {A B : Type} (m : M A) (k : A -> M B)
      (Q : A -> list (Event ConnT) -> Prop)
      (R : B -> list (Event ConnT) -> Prop) :
  runs m Q ->
  (forall a t1, Q a t1 -> runs (k a) (fun b t2 => R b (t1 ++ t2)%list)) ->
  runs (bind m k) R.
Proof.
  intros Hm Hk st. destruct (Hm st) as (st1 & a & t1 & E1 & T1 & HQ).
  destruct (Hk a t1 HQ st1) as (st2 & b & t2 & E2 & T2 & HR).
  exists st2, b, (t1 ++ t2)%list. unfold bind. rewrite E1.
  split; [exact E2|]. split; [|exact HR].
  rewrite T2, T1, app_assoc. reflexivity.
Qed.

Lemma runs_weaken {A : Type} (m : M A)
      (Q R : A -> list (Event ConnT) -> Prop) :
  runs m Q -> (forall a t, Q a t -> R a t) -> runs m R.
Proof.
  intros Hm HQR st. destruct (Hm st) as (st1 & a & t & E & T & HQ).
  exists st1, a, t. auto.
Qed.

Lemma runs_connSetDeadline (c : ConnT) (d : option Time) :
  runs (connSetDeadline c d) (fun _ t => t = [EvSetDeadline c d]).
Proof. intros st. eexists _, tt, _. repeat split. Qed.

Lemma runs_connWrite (c : ConnT) (data : list Byte.byte) :
  runs (connWrite c data) (fun _ t => t = [EvWrite c data]).
Proof.
  intros st. unfold connWrite.
  destruct (conn_Write c data (world st)) as [w r].
  eexists _, _, _. repeat split.
Qed.

Lemma runs_connClose (c : ConnT) :
  runs (connClose c) (fun _ t => t = [EvClose c]).
Proof.
  intros st. unfold connClose.
  destruct (conn_Close c (world st)) as [w r].
  eexists _, _, _. repeat split.
Qed.

Lemma runs_WithTimeout (ctx : Context) (d : Duration) :
  runs (WithTimeout ctx d) (fun _ t => t = []).
Proof.
  intros st. eexists _, _, []. split; [reflexivity|].
  rewrite app_nil_r. auto.
Qed.

Lemma runs_dial (ctx : Context) (address : string) :
  runs (dial ctx address) (fun _ t => t = [EvDial address]).
Proof.
  intros st. unfold dial.
  destruct (Dial ctx address (world st)) as [w r].
  eexists _, _, _. repeat split.
Qed.

Lemma runs_storeGet :
  runs storeGet (fun _ t => t = [EvStoreGet]).
Proof.
  intros st. unfold storeGet.
  destruct (store_Get (world st)) as [w r].
  eexists _, _, _. repeat split.
Qed.

Lemma runs_Sleep (d : Duration) :
  runs (Sleep d) (fun _ t => t = [EvSleep d]).
Proof. intros st. eexists _, tt, _. repeat split. Qed.

Lemma runs_ctxDone (ctx : Context) :
  runs (ctxDone ctx) (fun _ t => t = []).
Proof.
  intros st. eexists _, _, []. split; [reflexivity|].
  rewrite app_nil_r. auto.
Qed.

Lemma runs_deadline_set (ctx : Context) (c : ConnT) :
  runs (match Deadline ctx with
        | Some deadline => connSetDeadline c (Some deadline)
        | None => ret tt
        end) (fun _ t => Forall (on c) t).
Proof.
  destruct (Deadline ctx).
  - eapply runs_weaken; [apply runs_connSetDeadline|].
    intros _ tr ->. repeat constructor.
  - apply runs_ret. constructor.
Qed.

Lemma runs_deadline_reset (ctx : Context) (c : ConnT) :
  runs (match Deadline ctx with
        | Some _ => connSetDeadline c None
        | None => ret tt
        end) (fun _ t => Forall (on c) t).
Proof.
  destruct (Deadline ctx).
  - eapply runs_weaken; [apply runs_connSetDeadline|].
    intros _ tr ->. repeat constructor.
  - apply runs_ret. constructor.
Qed.

Lemma Call_buffer (ctx : Context) (request response response' : Message)
      (p p' : Protocol) (err : option error) (st st' : St) :
  Call ctx request response p st = Some (st', (p', response', err)) ->
  len (Bytes (body response)) <= len (Bytes (body response')).
Proof.
  unfold Call. intros H.
  apply bind_Some in H as (s1 & [] & _ & H).
  destruct (netErr p) as [e|].
  { apply bind_Some in H as (s2 & [] & _ & H).
    unfold ret in H. injection H as _ _ <- _. lia. }
  apply bind_Some in H as (s2 & [] & _ & H).
  apply bind_Some in H as (s3 & [r e] & Hin & H).
  apply bind_Some in H as (s4 & [] & _ & H).
  apply bind_Some in H as (s5 & [] & _ & H).
  unfold ret in H. injection H as _ _ <- _.
  apply bind_Some in Hin as (s6 & serr & _ & Hin).
  destruct serr as [e6|].
  { unfold ret in Hin. injection Hin as _ <- _. lia. }
  apply bind_Some in Hin as (s7 & [r7 e7] & Hr & Hin).
  apply recv_reads in Hr as [_ Hr].
  destruct e7; unfold ret in Hin; injection Hin as _ <- _; exact Hr.
Qed.

(** A [Call] on a protocol without a remembered error and with a
    response buffer that is not empty returns; its events are on the
    connection of the protocol, and the buffer does not shrink. *)
Lemma runs_Call (ctx : Context) (request response : Message) (p : Protocol) :
  netErr p = None ->
  0 < len (Bytes (body response)) ->
  runs (Call ctx request response p)
       (fun r t =>
          Forall (on (conn p)) t /\ r.1.1 = remember r.2 p
          /\ 0 < len (Bytes (body r.1.2))).
Proof.
  intros Hnil Hcap st.
  destruct (Call_exchange ctx request response p st Hnil Hcap)
    as (st' & res' & err & t & E & T & F).
  eexists st', (remember err p, res', err), _. split; [exact E|].
  split; [exact T|]. split.
  - constructor; [exact I|].
    apply Forall_app. split.
    { unfold deadline_set. destruct (Deadline ctx); repeat constructor. }
    constructor; [reflexivity|].
    apply Forall_app. split; [apply io_on; exact F|].
    apply Forall_app. split.
    { unfold deadline_reset. destruct (Deadline ctx); repeat constructor. }
    repeat constructor.
  - simpl. split; [reflexivity|]. apply Call_buffer in E. lia.
Qed.

Context {S : Sorter} {NamedValue : Type} {codec : Codec NamedValue}.

Lemma runs_bind_prefix {A B : Type} (m : M A) (k : A -> M B)
      (Q : A -> list (Event ConnT) -> Prop)
      (P : B -> list (Event ConnT) -> Prop) (tp : list (Event ConnT)) :
  runs m Q ->
  (forall a t1, Q a t1 ->
                runs (k a) (fun b t2 => P b ((tp ++ t1) ++ t2)%list)) ->
  runs (bind m k) (fun b t => P b (tp ++ t)%list).
Proof.
  intros Hm Hk. eapply runs_bind; [exact Hm|].
  intros a t1 HQ. eapply runs_weaken; [apply Hk; exact HQ|].
  intros b t2 HP. simpl. rewrite app_assoc. exact HP.
Qed.

Lemma runs_Handshake (ctx : Context) (conn0 : ConnT) (version0 : Z) :
  runs (Handshake ctx conn0 version0)
       (fun r t => Forall (on conn0) t
                   /\ forall p, r = inl p -> p = newProtocol version0 conn0).
Proof.
  unfold Handshake.
  eapply runs_bind; [apply runs_deadline_set|]. intros [] t1 F1.
  eapply runs_bind; [apply runs_connWrite|]. intros [n err] t2 ->.
  eapply runs_bind.
  - instantiate (1 := fun r t =>
                        t = [] /\ forall p, r = inl p ->
                                            p = newProtocol version0 conn0).
    destruct err as [e|]; [|destruct (n =? 8)]; apply runs_ret;
      (split; [reflexivity|]); intros p Hp; inversion Hp; reflexivity.
  - intros r t3 [-> Hr].
    eapply runs_bind; [apply runs_deadline_reset|]. intros [] t4 F4.
    apply runs_ret. split; [|exact Hr].
    rewrite app_nil_r.
    apply Forall_app. split; [exact F1|].
    apply Forall_app. split; [repeat constructor|].
    apply Forall_app. split; [constructor|exact F4].
Qed.

Lemma runs_close_return (address : string) (conn0 : ConnT)
      (leader : string) (err : option error) (tp : list (Event ConnT)) :
  Forall (on conn0) tp ->
  outcome_of address (None, leader, err) ->
  runs (bind (connClose conn0) (fun _ => ret (None, leader, err)))
       (fun r t => outcome_of address r
                   /\ on_connection conn0 r (tp ++ t)%list).
Proof.
  intros F Ho. eapply runs_bind; [apply runs_connClose|].
  intros a t ->. apply runs_ret. split; [exact Ho|].
  simpl. exists tp. auto.
Qed.

Lemma Forall_on_app (c : ConnT) (t1 t2 : list (Event ConnT)) :
  Forall (on c) t1 -> Forall (on c) t2 -> Forall (on c) (t1 ++ t2).
Proof. intros H1 H2. apply Forall_app. auto. Qed.

(** [connectAttemptOne] after a dial that gave [conn0]: it returns, and
    the connection is closed unless the protocol on it is returned. *)
Lemma runs_after_dial (c : Connector) (ctx : Context) (address : string)
      (version0 : Z) (conn0 : ConnT) (k : M (option Protocol * string * option error)) :
  k = (let! r := Handshake ctx conn0 version0 in
       match r with
       | inr e => let! _ := connClose conn0 in ret (None, "", Some e)
       | inl protocol =>
           let request := EncodeLeader (Init 16) in
           let response := Init 512 in
           let! (protocol, response, err) :=
             Call ctx request response protocol in
           match err with
           | Some e =>
               let! _ := Close protocol in
               if looksLegacy e then ret (None, "", Some errBadProtocol)
               else ret (None, "", Some e)
           | None =>
               match DecodeNodeCompat protocol response with
               | inr e => let! _ := Close protocol in ret (None, "", Some e)
               | inl (_, leader) =>
                   if String.eqb leader "" then
                     let! _ := Close protocol in ret (None, "", None)
                   else if String.eqb leader address then
                     let request := EncodeClient (id c) (reset request) in
                     let response := reset response in
                     let! (protocol, response, err) :=
                       Call ctx request response protocol in
                     match err with
                     | Some e =>
                         let! _ := Close protocol in ret (None, "", Some e)
                     | None =>
                         match DecodeWelcome response with
                         | inr e =>
                             let! _ := Close protocol in
                             ret (None, "", Some e)
                         | inl _ => ret (Some protocol, "", None)
                         end
                     end
                   else
                     let! _ := Close protocol in ret (None, leader, None)
               end
           end
       end) ->
  runs k (fun r t => outcome_of address r /\ on_connection conn0 r ([] ++ t)).
Proof.
  intros ->.
  pose (P := fun (r : option Protocol * string * option error)
                 (t : list (Event ConnT)) =>
               outcome_of address r /\ on_connection conn0 r t).
  apply (runs_bind_prefix _ _ _ P [] (runs_Handshake ctx conn0 version0)).
  intros r t1 [F1 Hr]. change ([] ++ t1)%list with t1.
  destruct r as [protocol|e].
  2:{ apply runs_close_return; [exact F1|reflexivity]. }
  specialize (Hr protocol eq_refl). subst protocol.
  apply (runs_bind_prefix _ _ _ P t1
           (runs_Call ctx (EncodeLeader (Init 16)) (Init 512)
                      (newProtocol version0 conn0) eq_refl eq_refl)).
  intros [[protocol1 response1] err1] t2 (F2 & Hp1 & Hb1).
  simpl in F2, Hp1, Hb1.
  assert (F12 : Forall (on conn0) (t1 ++ t2)) by (apply Forall_on_app; auto).
  assert (Hc1 : conn protocol1 = conn0).
  { subst protocol1. unfold remember. destruct err1 as [e|]; [|reflexivity].
    destruct (As_OpError e); reflexivity. }
  destruct err1 as [e|].
  { unfold Close. rewrite Hc1.
    destruct (looksLegacy e); apply runs_close_return; auto; reflexivity. }
  simpl in Hp1. subst protocol1. clear Hc1.
  destruct (DecodeNodeCompat _ response1) as [[id0 leader]|e].
  2:{ apply runs_close_return; [exact F12|reflexivity]. }
  destruct (String.eqb_spec leader "") as [->|Hne].
  { apply runs_close_return; [exact F12|]. left. reflexivity. }
  destruct (String.eqb_spec leader address) as [->|Hna].
  2:{ apply runs_close_return; [exact F12|]. right. exact Hna. }
  cbv zeta.
  apply (runs_bind_prefix _ _ _ P (t1 ++ t2)
           (runs_Call ctx (EncodeClient (id c) (reset (EncodeLeader (Init 16))))
                      (reset response1) (newProtocol version0 conn0)
                      eq_refl Hb1)).
  intros [[protocol2 response2] err2] t3 (F3 & Hp2 & Hb2).
  simpl in F3, Hp2, Hb2.
  assert (F123 : Forall (on conn0) ((t1 ++ t2) ++ t3))
    by (apply Forall_on_app; auto).
  assert (Hc2 : conn protocol2 = conn0).
  { subst protocol2. unfold remember. destruct err2 as [e|]; [|reflexivity].
    destruct (As_OpError e); reflexivity. }
  destruct err2 as [e|].
  { unfold Close. rewrite Hc2. apply runs_close_return; auto; reflexivity. }
  destruct (DecodeWelcome response2) as [w|e].
  - apply runs_ret. split; [split; reflexivity|].
    simpl. rewrite app_nil_r. split; [exact Hc2|exact F123].
  - unfold Close. rewrite Hc2. apply runs_close_return; auto; reflexivity.
Qed.

(** [connectAttemptOne] in a state: the dial is the first event, and
    according to what it gives the attempt is over or goes on with the
    connection. *)
Lemma connectAttemptOne_from_dial (c : Connector) (ctx : Context)
      (address : string) (version0 : Z) (st : St) :
  exists st1 d,
    dialed c ctx address st = Some d
    /\ trace st1 = (trace st ++ [EvDial address])%list
    /\ forall st' r,
        connectAttemptOne c ctx address version0 st = Some (st', r) ->
        exists t, trace st' = (trace st1 ++ t)%list
                  /\ outcome_of address r
                  /\ match d with
                     | inr err =>
                         r = (None, "", Some (ErrorfW "dial: %w" err))
                         /\ t = []
                     | inl conn0 => on_connection conn0 r t
                     end.
Proof.
  set (dialCtx := mkContext
                    (Some match Deadline ctx with
                          | Some t0 =>
                              Z.min t0 (now (world st) + DialTimeout (config c))
                          | None => now (world st) + DialTimeout (config c)
                          end)).
  assert (EW : WithTimeout ctx (DialTimeout (config c)) st = Some (st, dialCtx))
    by reflexivity.
  destruct (Dial dialCtx address (world st)) as [w d] eqn:ED.
  assert (Edial : dial dialCtx address st
                  = Some (mkSt w (trace st ++ [EvDial address]), d)).
  { unfold dial. rewrite ED. reflexivity. }
  exists (mkSt w (trace st ++ [EvDial address])), d.
  split.
  { unfold dialed, bind. rewrite EW. cbv beta iota. rewrite Edial.
    reflexivity. }
  split; [reflexivity|].
  intros st' r H. unfold connectAttemptOne in H.
  apply bind_Some in H as (s0 & dc & HW & H).
  rewrite EW in HW. injection HW as <- <-.
  apply bind_Some in H as (s1 & d1 & HD & H).
  rewrite Edial in HD. injection HD as <- <-.
  destruct d as [conn0|err].
  - match type of H with
    | ?k _ = _ =>
        destruct (runs_after_dial c ctx address version0 conn0 k eq_refl
                    (mkSt w (trace st ++ [EvDial address])))
        as (st2 & r2 & t & E & T & Ho & Hc)
    end.
    rewrite H in E. injection E as <- <-.
    exists t. auto.
  - unfold ret in H. injection H as <- <-.
    exists []. rewrite app_nil_r. repeat split; reflexivity.
Qed.

(** On a [Network], whose operations return, [connectAttemptOne]
    returns; it dials the address once, and the connection the dial
    gives is closed unless the protocol on it is returned. *)
Lemma runs_connectAttemptOne (c : Connector) (ctx : Context)
      (address : string) (version0 : Z) :
  runs (connectAttemptOne c ctx address version0)
       (fun r t => outcome_of address r
                   /\ exists d, attempt_events address d r t).
Proof.
  unfold connectAttemptOne.
  eapply runs_bind; [apply runs_WithTimeout|]. intros dialCtx t1 ->.
  eapply runs_bind; [apply runs_dial|]. intros r t2 ->.
  destruct r as [conn0|err].
  2:{ apply runs_ret. split; [reflexivity|]. exists (inr err).
      split; reflexivity. }
  eapply runs_weaken.
  { eapply (runs_after_dial c ctx address version0 conn0). reflexivity. }
  intros [[protocol leader] err] t [Ho Hc]. split; [exact Ho|].
  exists (inl conn0). exists t. split; [reflexivity|exact Hc].
Qed.

Lemma attempt_events_dials (address : string) (d : ConnT + error)
      (r : option Protocol * string * option error)
      (t : list (Event ConnT)) :
  attempt_events address d r t ->
  outline t = [EvDial address] /\ dials t = [address]
  /\ store_gets t = 0%nat.
Proof.
  destruct d as [conn0|err0]; simpl.
  - intros (t' & -> & Hc). destruct r as [[[p|] leader] err]; simpl in Hc.
    + destruct Hc as [_ F]. apply on_outline in F as (Ho & Hd & Hs).
      simpl. rewrite Ho, Hd. unfold store_gets in *. simpl. auto.
    + destruct Hc as (t2 & -> & F).
      apply on_outline in F as (Ho & Hd & Hs).
      simpl. rewrite outline_app, dials_app, Ho, Hd.
      unfold store_gets in *. simpl.
      rewrite flat_map_app, length_app, Hs. auto.
  - intros [_ ->]. auto.
Qed.

Lemma only_dials_app (t1 t2 : list (Event ConnT)) :
  only_dials t1 -> only_dials t2 -> only_dials (t1 ++ t2).
Proof.
  unfold only_dials. intros H1 H2.
  rewrite outline_app, dials_app, map_app, H1, H2. reflexivity.
Qed.

Lemma only_dials_nil : only_dials [].
Proof. reflexivity. Qed.

Lemma attempt_events_only_dials (address : string)
      (r : option Protocol * string * option error)
      (t : list (Event ConnT)) :
  (exists d, attempt_events address d r t) ->
  only_dials t /\ dials t = [address].
Proof.
  intros [d H]. apply attempt_events_dials in H as (Ho & Hd & _).
  unfold only_dials. rewrite Ho, Hd. auto.
Qed.

(** The attempt on a server, with its second try on [errBadProtocol]:
    one or two dials of the address of the server. *)
Lemma runs_attemptCandidate (c : Connector) (ctx : Context)
      (server : NodeInfo) :
  runs (attemptCandidate c ctx server)
       (fun r t =>
          outcome_of (Address server) (r.1.1.2, r.1.2, r.2)
          /\ only_dials t
          /\ (dials t = [Address server] /\ r.1.1.1 = VersionOne
              \/ dials t = [Address server; Address server]
                 /\ r.1.1.1 = VersionLegacy)).
Proof.
  unfold attemptCandidate.
  eapply runs_bind; [apply runs_connectAttemptOne|].
  intros [[protocol leader] err] t1 [Ho He].
  apply attempt_events_only_dials in He as [Hod Hd].
  assert (Hone : runs (ret (VersionOne, protocol, leader, err))
                   (fun r t2 =>
                      outcome_of (Address server) (r.1.1.2, r.1.2, r.2)
                      /\ only_dials (t1 ++ t2)
                      /\ (dials (t1 ++ t2) = [Address server]
                          /\ r.1.1.1 = VersionOne
                          \/ dials (t1 ++ t2) = [Address server; Address server]
                             /\ r.1.1.1 = VersionLegacy))).
  { apply runs_ret. rewrite app_nil_r. simpl. auto. }
  destruct err as [e|]; [|exact Hone].
  destruct e; try exact Hone.
  eapply runs_bind; [apply runs_connectAttemptOne|].
  intros [[protocol2 leader2] err2] t2 [Ho2 He2].
  apply attempt_events_only_dials in He2 as [Hod2 Hd2].
  apply runs_ret. rewrite app_nil_r. simpl.
  split; [exact Ho2|]. split; [apply only_dials_app; auto|].
  right. rewrite dials_app, Hd, Hd2. auto.
Qed.

(** The attempt on a reported leader: one dial of its address. *)
Lemma runs_attemptReported (c : Connector) (ctx : Context) (leader : string)
      (version0 : Z) :
  runs (attemptReported c ctx leader version0)
       (fun _ t => only_dials t /\ dials t = [leader]).
Proof.
  unfold attemptReported.
  eapply runs_bind; [apply runs_WithTimeout|]. intros ctx2 t1 ->.
  eapply runs_bind; [apply runs_connectAttemptOne|].
  intros [[protocol leader2] err] t2 [_ He].
  apply attempt_events_only_dials in He.
  destruct err; [|destruct protocol]; apply runs_ret;
    rewrite app_nil_r; exact He.
Qed.

Lemma runs_attemptServer (c : Connector) (ctx : Context) (server : NodeInfo) :
  runs (attemptServer c ctx server) (fun _ t => probe_of server t).
Proof.
  unfold attemptServer.
  eapply runs_bind; [apply runs_WithTimeout|]. intros ctx1 t1 ->.
  eapply runs_bind; [apply runs_attemptCandidate|].
  intros [[[v protocol] leader] err] t2 (_ & Hod & Hd). simpl in Hd.
  assert (Hp : probe_of server t2).
  { split; [exact Hod|].
    destruct Hd as [[-> _]|[-> _]]; eexists; split; try reflexivity; simpl; lia. }
  assert (Hret : forall r : unit + Protocol,
             runs (ret r) (fun _ t3 => probe_of server ([] ++ t2 ++ t3))).
  { intros r. apply runs_ret. rewrite app_nil_r. exact Hp. }
  destruct err as [e|]; [apply Hret|].
  destruct protocol as [p|]; [apply Hret|].
  destruct (String.eqb leader ""); [apply Hret|].
  eapply runs_weaken; [apply runs_attemptReported|].
  intros r t3 [Hod3 Hd3]. simpl. split; [apply only_dials_app; auto|].
  rewrite dials_app, Hd3.
  destruct Hd as [[-> _]|[-> _]]; eexists; split; try reflexivity; simpl; lia.
Qed.

Lemma probes_nil : probes [] [].
Proof. split; [reflexivity|]. exists []. split; [reflexivity|constructor]. Qed.

Lemma probes_cons (server : NodeInfo) (servers : list NodeInfo)
      (t1 t2 : list (Event ConnT)) :
  probe_of server t1 -> probes servers t2 -> probes (server :: servers) (t1 ++ t2).
Proof.
  intros [Ho1 (rest & Hd1 & Hl)] [Ho2 (blocks & Hd2 & F)].
  split; [apply only_dials_app; auto|].
  exists ((Address server :: rest) :: blocks). split.
  - rewrite dials_app, Hd1, Hd2. reflexivity.
  - constructor; [|exact F]. exists rest. auto.
Qed.

(** The loop of [connectAttemptAll] handles the servers in the order of
    the list, up to the first that gives a protocol; without one, it
    handles them all and gives [ErrNoAvailableLeader]. *)
Lemma runs_attemptServers (c : Connector) (ctx : Context)
      (servers : list NodeInfo) :
  runs (attemptServers c ctx servers)
       (fun r t =>
          exists k : nat,
            (k <= length servers)%nat
            /\ probes (firstn k servers) t
            /\ (r.1 = None ->
                k = length servers /\ r.2 = Some ErrNoAvailableLeader)
            /\ (forall p, r.1 = Some p -> (0 < k)%nat /\ r.2 = None)).
Proof.
  induction servers as [|server rest IH]; simpl.
  - apply runs_ret. exists 0%nat. simpl. split; [lia|].
    split; [apply probes_nil|]. split; [auto|]. intros p Hp. discriminate.
  - eapply runs_bind; [apply runs_attemptServer|]. intros r t1 Hp1.
    destruct r as [[]|p].
    + eapply runs_weaken; [apply IH|].
      intros r t2 (k & Hk & Hp & Hn & Hs). exists (Datatypes.S k). simpl.
      split; [lia|]. split; [apply probes_cons; auto|]. split.
      * intros Hr. destruct (Hn Hr) as [-> He]. auto.
      * intros p Hr. destruct (Hs p Hr) as [_ He]. split; [lia|exact He].
    + apply runs_ret. exists 1%nat. simpl. split; [lia|].
      split.
      { rewrite app_nil_r. rewrite <- (app_nil_r t1).
        apply probes_cons; [exact Hp1|]. rewrite firstn_O. apply probes_nil. }
      split; [intros Hr; discriminate|]. intros p0 _. split; [lia|reflexivity].
Qed.

(** [connectAttemptAll] asks the store once; with a list from the store
    it handles the sorted servers in order. *)
Lemma connectAttemptAll_from_store (c : Connector) (ctx : Context) (st : St) :
  exists st1 result,
    storeGet st = Some (st1, result)
    /\ trace st1 = (trace st ++ [EvStoreGet])%list
    /\ connectAttemptAll c ctx st
       = match result with
         | inr err => Some (st1, (None, Some (ErrorfW "get servers: %w" err)))
         | inl servers =>
             attemptServers c ctx (sort_Slice lessRole servers) st1
         end.
Proof.
  unfold connectAttemptAll, bind, storeGet.
  destruct (store_Get (world st)) as [w result].
  eexists _, result. split; [reflexivity|]. split; [reflexivity|].
  destruct result; reflexivity.
Qed.

Lemma runs_connectAttemptAll (c : Connector) (ctx : Context) :
  runs (connectAttemptAll c ctx)
       (fun r t => exists t', t = EvStoreGet :: t' /\ only_dials t'
                              /\ (r.1 <> None -> r.2 = None)).
Proof.
  intros st.
  destruct (connectAttemptAll_from_store c ctx st) as (st1 & result & _ & T1 & E).
  destruct result as [servers|err].
  - destruct (runs_attemptServers c ctx (sort_Slice lessRole servers) st1)
      as (st2 & r & t & E2 & T2 & k & _ & [Ho _] & _ & Hs).
    exists st2, r, (EvStoreGet :: t). rewrite E. split; [exact E2|].
    split; [rewrite T2, T1, <- app_assoc; reflexivity|].
    exists t. split; [reflexivity|]. split; [exact Ho|].
    intros Hr. destruct r as [[p|] e]; [|contradiction].
    apply (Hs p). reflexivity.
  - eexists _, _, [EvStoreGet]. rewrite E. split; [reflexivity|].
    split; [exact T1|]. exists []. split; [reflexivity|].
    split; [apply only_dials_nil|]. intros Hr. contradiction.
Qed.

Lemma only_dials_no_sleep (t : list (Event ConnT)) (d : Duration) :
  only_dials t -> ~ In (EvSleep d) t.
Proof.
  unfold only_dials. intros Ho Hin.
  assert (Hin' : In (EvSleep d) (outline t)).
  { clear Ho. induction t as [|e t IH]; [contradiction|].
    destruct Hin as [->|Hin]; [left; reflexivity|].
    specialize (IH Hin). destruct e; simpl; auto. }
  rewrite Ho in Hin'. apply in_map_iff in Hin' as (a & Ha & _). discriminate.
Qed.

Lemma only_dials_store_gets (t : list (Event ConnT)) :
  only_dials t -> store_gets t = 0%nat.
Proof.
  unfold only_dials. intros Ho.
  assert (E : store_gets t = store_gets (outline t)).
  { unfold store_gets. clear Ho. induction t as [|e t IH]; [reflexivity|].
    destruct e; simpl in *; rewrite ?IH; reflexivity. }
  rewrite E, Ho. unfold store_gets.
  generalize (dials t) as l. induction l; simpl; auto.
Qed.
End Attempts.

(** ** Sorting by role *)

Section Sorting.

Lemma insert_sorted_perm {A : Type} (less : A -> A -> bool) (x : A)
      (l : list A) :
  Permutation (x :: l) (insert_sorted less x l).
Proof.
  induction l as [|y l IH]; simpl; [reflexivity|].
  destruct (less x y); [reflexivity|].
  rewrite perm_swap. constructor. exact IH.
Qed.

Lemma insertionSort_perm_acc {A : Type} (less : A -> A -> bool)
      (l acc : list A) :
  Permutation (acc ++ l)
              (fold_left (fun sorted x => insert_sorted less x sorted) l acc).
Proof.
  revert acc. induction l as [|x l IH]; intros acc; simpl.
  - rewrite app_nil_r. reflexivity.
  - rewrite <- IH. rewrite <- insert_sorted_perm.
    simpl. symmetry. apply Permutation_middle.
Qed.

Lemma insert_sorted_by_role (x : NodeInfo) (l : list NodeInfo) :
  Sorted (fun a b => lessRole b a = false) l ->
  Sorted (fun a b => lessRole b a = false) (insert_sorted lessRole x l).
Proof.
  unfold lessRole. induction l as [|y l IH]; intros Hs; simpl.
  - repeat constructor.
  - destruct (Z.ltb_spec (Role x) (Role y)) as [Hlt|Hge].
    + constructor; [exact Hs|]. constructor. apply Z.ltb_ge. lia.
    + apply Sorted_inv in Hs as [Hs Hhd]. constructor; [apply IH; exact Hs|].
      destruct l as [|z l]; simpl.
      * constructor. apply Z.ltb_ge. lia.
      * destruct (Z.ltb_spec (Role x) (Role z)).
        -- constructor. apply Z.ltb_ge. lia.
        -- constructor. inversion Hhd; subst. assumption.
Qed.

(** The insertion sort keeps the promise of [sort.Slice] for the
    comparison by role. *)
Lemma insertionSort_sorts : sorts lessRole (insertionSort lessRole).
Proof.
  intros l. split.
  - apply (insertionSort_perm_acc lessRole l []).
  - unfold insertionSort.
    assert (H : forall acc,
               Sorted (fun a b => lessRole b a = false) acc ->
               Sorted (fun a b => lessRole b a = false)
                      (fold_left (fun sorted x => insert_sorted lessRole x sorted)
                                 l acc)).
    { induction l as [|x l IH]; intros acc Ha; simpl; [exact Ha|].
      apply IH. apply insert_sorted_by_role. exact Ha. }
    apply H. constructor.
Qed.

Lemma sorted_by_role (l : list NodeInfo) :
  Sorted (fun a b => lessRole b a = false) l -> by_role l.
Proof.
  unfold by_role. intros H. induction H as [|a l Hs IH Hhd]; constructor.
  - exact IH.
  - destruct Hhd as [|b l Hb]; constructor.
    unfold lessRole in Hb. apply Z.ltb_ge in Hb. exact Hb.
Qed.
End Sorting.

(** ** The connector: one attempt, the order of the attempts, the
    reported leader *)

Section AttemptProperties.
Context {N : Network} {S : Sorter}.
Context {NamedValue : Type} {codec : Codec NamedValue}.

(** X1: whenever [connectAttemptOne] returns, it has dialed the address
    once, as its first event. When the dial gave an error, nothing else
    happened and the error comes back wrapped. When the dial gave a
    connection, every event that follows is on that connection; a
    protocol that is returned is on that connection, which is then not
    closed; and on every other return the closing of that connection is
    the last event. What is returned is a protocol, or an error, or the
    address of another node, or nothing. *)
Theorem connectAttemptOne_one_dial_no_leak
        (c : Connector) (ctx : Context) (address : string) (version0 : Z)
        (st st' : St) (r : option Protocol * string * option error) :
  connectAttemptOne c ctx address version0 st = Some (st', r) ->
  outcome_of address r
  /\ exists d t,
      dialed c ctx address st = Some d
      /\ trace st' = (trace st ++ t)%list
      /\ attempt_events address d r t.
Proof.
  intros H.
  destruct (connectAttemptOne_from_dial c ctx address version0 st)
    as (st1 & d & Hd & T1 & Hk).
  destruct (Hk st' r H) as (t & T & Ho & Hc).
  split; [exact Ho|]. exists d, (EvDial address :: t). split; [exact Hd|].
  split; [rewrite T, T1, <- app_assoc; reflexivity|].
  destruct d as [conn0|err]; simpl.
  - exists t. auto.
  - destruct Hc as [-> ->]. auto.
Qed.

(** X2: with a [sort.Slice] that keeps its promise, [connectAttemptAll]
    asks the store once and handles the servers in ascending order of
    role: the dials fall into blocks, one for each of the first [k]
    servers of the sorted list, each block beginning with the address of
    its server; when no protocol comes out, all the servers were
    handled and the error is [ErrNoAvailableLeader]. *)
Theorem connectAttemptAll_role_order
        (c : Connector) (ctx : Context) (st : St) (w : World)
        (servers : list NodeInfo) :
  sorts lessRole (sort_Slice lessRole) ->
  store_Get (world st) = (w, inl servers) ->
  exists st' r t (k : nat),
    connectAttemptAll c ctx st = Some (st', r)
    /\ trace st' = (trace st ++ EvStoreGet :: t)%list
    /\ Permutation servers (sort_Slice lessRole servers)
    /\ by_role (sort_Slice lessRole servers)
    /\ (k <= length servers)%nat
    /\ probes (firstn k (sort_Slice lessRole servers)) t
    /\ (r.1 = None ->
        k = length servers /\ r.2 = Some ErrNoAvailableLeader).
Proof.
  intros Hsort Hget.
  destruct (Hsort servers) as [Hperm Hsorted].
  destruct (connectAttemptAll_from_store c ctx st)
    as (st1 & result & Eg & T1 & E).
  unfold storeGet in Eg. rewrite Hget in Eg. injection Eg as <- <-.
  destruct (runs_attemptServers c ctx (sort_Slice lessRole servers)
              (mkSt w (trace st ++ [EvStoreGet])))
    as (st2 & r & t & E2 & T2 & k & Hk & Hp & Hn & _).
  exists st2, r, t, k. rewrite E. split; [exact E2|].
  split; [rewrite T2; simpl; rewrite <- app_assoc; reflexivity|].
  split; [exact Hperm|]. split; [apply sorted_by_role; exact Hsorted|].
  assert (Hlen : length (sort_Slice lessRole servers) = length servers).
  { symmetry. apply Permutation_length. exact Hperm. }
  rewrite Hlen in Hk, Hn. auto.
Qed.

(** X3: when the attempt on a server ends with the address of a leader,
    that address is not the one of the server, and exactly one attempt
    is made on it, with the version used last and a new timeout: one
    dial. If it gives a protocol the loop of [connectAttemptAll] ends
    with it; whatever else it gives, a second reported leader included,
    the loop goes on with the next server of the list. *)
Theorem reported_leader_one_hop
        (c : Connector) (ctx ctx1 : Context) (server : NodeInfo)
        (version0 : Z) (leader : string) (st st1 : St) :
  WithTimeout ctx (AttemptTimeout (config c)) st = Some (st, ctx1) ->
  attemptCandidate c ctx1 server st
  = Some (st1, (version0, None, leader, None)) ->
  leader <> "" ->
  leader <> Address server
  /\ exists ctx2 st2 r2 t2,
      WithTimeout ctx1 (AttemptTimeout (config c)) st1 = Some (st1, ctx2)
      /\ connectAttemptOne c ctx2 leader version0 st1 = Some (st2, r2)
      /\ trace st2 = (trace st1 ++ t2)%list
      /\ dials t2 = [leader]
      /\ attemptServer c ctx server st
         = Some (st2, match r2 with
                      | (Some p, _, None) => inr p
                      | _ => inl tt
                      end)
      /\ forall rest,
          attemptServers c ctx (server :: rest) st
          = match r2 with
            | (Some p, _, None) => Some (st2, (Some p, None))
            | _ => attemptServers c ctx rest st2
            end.
Proof.
  intros Hctx Hcand Hne.
  destruct (runs_attemptCandidate c ctx1 server st)
    as (st1' & r & t & E & _ & Ho & _).
  rewrite Hcand in E. injection E as <- <-. simpl in Ho.
  split; [destruct Ho as [Ho|Ho]; [contradiction|exact Ho]|].
  destruct (runs_connectAttemptOne c
              (mkContext (Some match Deadline ctx1 with
                               | Some t0 => Z.min t0 (now (world st1)
                                                      + AttemptTimeout (config c))
                               | None => now (world st1)
                                         + AttemptTimeout (config c)
                               end))
              leader version0 st1)
    as (st2 & r2 & t2 & E2 & T2 & Ho2 & He2).
  eexists _, st2, r2, t2. split; [reflexivity|]. split; [exact E2|].
  split; [exact T2|].
  split; [apply attempt_events_only_dials in He2 as [_ Hd]; exact Hd|].
  assert (Hs : attemptServer c ctx server st
               = Some (st2, match r2 with
                            | (Some p, _, None) => inr p
                            | _ => inl tt
                            end)).
  { unfold attemptServer. unfold bind at 1. rewrite Hctx.
    unfold bind at 1. rewrite Hcand.
    destruct (String.eqb_spec leader ""); [contradiction|].
    unfold attemptReported. unfold bind at 1.
    unfold WithTimeout at 1. cbv beta iota.
    unfold bind at 1. rewrite E2.
    destruct r2 as [[[p|] l] [e|]]; reflexivity. }
  split; [exact Hs|].
  intros rest. simpl. unfold bind at 1. rewrite Hs.
  destruct r2 as [[[p|] l] [e|]]; reflexivity.
Qed.
End AttemptProperties.

Section AttemptExamples.
Import Sim Worlds.

(** The stand-by of the [redirecting] cluster knows no leader: the
    attempt on it returns nothing, and the connection the dial gave is
    closed as the last event; the voter refuses the connection, and the
    dial is all that happens. *)
Lemma connectAttemptOne_one_dial_no_leak_witness :
  (exists st' t,
      connectAttemptOne (connector 0) Background "c" VersionOne
                        (start redirecting)
      = Some (st', (None, "", None))
      /\ trace st' = (EvDial "c" :: t ++ [EvClose "c"])%list
      /\ Forall (on "c") t)
  /\ (exists st',
         connectAttemptOne (connector 0) Background "b" VersionOne
                           (start redirecting)
         = Some (st', (None, "", Some (ErrorfW "dial: %w" refused)))
         /\ trace st' = [EvDial "b"]).
Proof.
  split.
  - eassert (E : connectAttemptOne (N := network) (connector 0) Background
                   "c" VersionOne (start redirecting)
                 = Some (_, (None, "", None)))
      by (vm_compute; reflexivity).
    destruct (connectAttemptOne_one_dial_no_leak (N := network) (connector 0)
                Background "c" VersionOne (start redirecting) _ _ E)
      as (_ & d & t & Hd & T & He).
    vm_compute in Hd. injection Hd as <-.
    destruct He as (t1 & -> & t2 & -> & F).
    eexists _, t2. split; [exact E|]. split; [exact T|exact F].
  - eassert (E : connectAttemptOne (N := network) (connector 0) Background
                   "b" VersionOne (start redirecting)
                 = Some (_, (None, "", Some _)))
      by (vm_compute; reflexivity).
    destruct (connectAttemptOne_one_dial_no_leak (N := network) (connector 0)
                Background "b" VersionOne (start redirecting) _ _ E)
      as (_ & d & t & Hd & T & He).
    vm_compute in Hd. injection Hd as <-.
    destruct He as [_ ->].
    eexists. split; [exact E|]. exact T.
Defined.

Lemma connectAttemptAll_role_order_witness :
  exists st' r t (k : nat),
    connectAttemptAll (connector 0) Background (start redirecting)
    = Some (st', r)
    /\ trace st' = (EvStoreGet :: t)%list
    /\ Permutation [spare_a; voter_b; standby_c]
                   (insertionSort lessRole [spare_a; voter_b; standby_c])
    /\ by_role (insertionSort lessRole [spare_a; voter_b; standby_c])
    /\ (k <= 3)%nat
    /\ probes (firstn k (insertionSort lessRole
                           [spare_a; voter_b; standby_c])) t
    /\ (r.1 = None -> k = 3%nat /\ r.2 = Some ErrNoAvailableLeader).
Proof.
  apply (connectAttemptAll_role_order (N := network) (S := sorter)
           (connector 0) Background (start redirecting) redirecting
           [spare_a; voter_b; standby_c]).
  - apply insertionSort_sorts.
  - reflexivity.
Defined.

Lemma reported_leader_one_hop_witness :
  exists st2 p,
    attemptServer (connector 0) Background spare_a (start redirecting)
    = Some (st2, inr p)
    /\ conn p = "d"
    /\ dials (trace st2) = ["a"; "d"].
Proof.
  destruct (reported_leader_one_hop (N := network) (connector 0) Background
              attempt_ctx spare_a VersionOne "d" (start redirecting)
              after_spare)
    as (_ & ctx2 & st2 & r2 & t2 & Hw & Hc & Ht & Hd & Hs & _).
  - vm_compute. reflexivity.
  - vm_compute. reflexivity.
  - discriminate.
  - injection Hw as <-.
    vm_compute in Hc. injection Hc as <- <-.
    eexists _, _. split; [exact Hs|]. split; reflexivity.
Defined.
End AttemptExamples.

(** ** The connector: the retry loop *)

Section RetryLoop.
Context {N : Network} {S : Sorter}.
Context {NamedValue : Type} {codec : Codec NamedValue}.

(** What the strategies of [makeRetryStrategies] do before an attempt:
    they refuse it when a limit is set and reached, and else sleep, from
    the second attempt on, for a time that is the cap or positive and
    below the cap. *)
Lemma shouldAttempt_makeRetryStrategies
      (factor cap : Duration) (limit attempt : Z) (st : St) :
  0 <= attempt ->
  exists st' b t,
    shouldAttempt attempt (makeRetryStrategies factor cap limit) st
    = Some (st', b)
    /\ trace st' = (trace st ++ t)%list
    /\ b = negb (((limit + 1) mod uint_max >? 1)
                 && ((limit + 1) mod uint_max <=? attempt))
    /\ (t = [] /\ st' = st
        \/ exists d, t = [EvSleep d] /\ 0 < attempt /\ b = true
                     /\ (d = cap \/ 0 < d <= cap)).
Proof.
  intros Hi. unfold makeRetryStrategies.
  set (l := (limit + 1) mod uint_max).
  set (d0 := BinaryExponential factor attempt).
  set (d := if (d0 >? cap) || (d0 <=? 0) then cap else d0).
  assert (Hd : d = cap \/ 0 < d <= cap).
  { unfold d. destruct (Z.gtb_spec d0 cap); simpl; [auto|].
    destruct (Z.leb_spec d0 0); [auto|]. right. lia. }
  assert (Hback : exists st' t,
             shouldAttempt attempt
               [fun attempt0 : Z =>
                  (if attempt0 >? 0
                   then
                     Sleep (if (BinaryExponential factor attempt0 >? cap)
                               || (BinaryExponential factor attempt0 <=? 0)
                            then cap
                            else BinaryExponential factor attempt0)
                   else ret tt) ;;; ret true] st = Some (st', true)
             /\ trace st' = (trace st ++ t)%list
             /\ (t = [] /\ st' = st
                 \/ exists d, t = [EvSleep d] /\ 0 < attempt
                              /\ (d = cap \/ 0 < d <= cap))).
  { simpl. unfold bind.
    destruct (Z.gtb_spec attempt 0) as [Hpos|Hz].
    - eexists _, [EvSleep d]. split; [reflexivity|]. split; [reflexivity|].
      right. exists d. auto.
    - exists st, []. split; [reflexivity|]. rewrite app_nil_r. auto. }
  destruct Hback as (st' & t & E & T & Ht).
  destruct (Z.gtb_spec l 1) as [Hl|Hl]; simpl.
  - unfold bind, Limit, ret.
    destruct (Z.ltb_spec attempt l) as [Hlt|Hge].
    + simpl in E. unfold bind in E. unfold bind.
      exists st', true, t. split; [exact E|]. split; [exact T|].
      split; [destruct (Z.leb_spec l attempt); [lia|reflexivity]|].
      destruct Ht as [Ht|(d1 & -> & Hp & Hd1)]; [left; exact Ht|].
      right. exists d1. auto.
    + exists st, false, []. split; [reflexivity|].
      rewrite app_nil_r. split; [reflexivity|].
      split; [destruct (Z.leb_spec l attempt); [reflexivity|lia]|].
      left. auto.
  - exists st', true, t. split; [exact E|]. split; [exact T|].
    split; [reflexivity|].
    destruct Ht as [Ht|(d1 & -> & Hp & Hd1)]; [left; exact Ht|].
    right. exists d1. auto.
Qed.

Lemma store_gets_sleep (d : Duration) : store_gets [EvSleep d] = 0%nat.
Proof. reflexivity. Qed.

(** With a limit of [limit] retries and an action that fails every time,
    asking the store once each time, the loop makes the attempts that
    are left up to [limit + 1] and returns the last error. *)
Lemma Retry_loop_limited {X : Type}
      (action : Z -> X -> M (X * option error))
      (factor cap : Duration) (limit : Z) :
  1 <= limit -> limit + 1 < uint_max ->
  (forall i x st, exists st' x' e t,
      action i x st = Some (st', (x', Some e))
      /\ trace st' = (trace st ++ t)%list
      /\ store_gets t = 1%nat) ->
  forall (k : nat) (i : Z) (fuel : nat) (x : X) (err : option error) (st : St),
    0 <= i -> i + Z.of_nat k = limit + 1 ->
    (i = 0 \/ err <> None) -> (k < fuel)%nat ->
    exists st' x' e t,
      Retry_loop fuel action (makeRetryStrategies factor cap limit) i x err st
      = Some (st', (x', Some e))
      /\ trace st' = (trace st ++ t)%list
      /\ store_gets t = k.
Proof.
  intros Hl1 Hl2 Hact.
  assert (Hmod : (limit + 1) mod uint_max = limit + 1)
    by (apply Z.mod_small; lia).
  induction k as [|k IH]; intros i fuel x err st Hi Hik Herr Hfuel;
    (destruct fuel as [|fuel]; [lia|]); simpl.
  - assert (Hc : (i =? 0) || bool_decide (is_Some err) = true).
    { destruct Herr as [->|Herr]; [reflexivity|].
      destruct err as [e|]; [|contradiction].
      rewrite bool_decide_eq_true_2 by eauto. apply orb_true_r. }
    rewrite Hc. unfold bind.
    destruct (shouldAttempt_makeRetryStrategies factor cap limit i st Hi)
      as (st' & b & t & E & T & Hb & Ht).
    rewrite E. rewrite Hmod in Hb.
    assert (Hbf : b = false).
    { subst b. destruct (Z.gtb_spec (limit + 1) 1); [|lia].
      destruct (Z.leb_spec (limit + 1) i); [reflexivity|lia]. }
    clear Hb. subst b. destruct Ht as [[-> ->]|(d & _ & _ & Hd & _)]; [|discriminate Hd].
    destruct err as [e|]; [|destruct Herr; [lia|contradiction]].
    exists st, x, e, []. rewrite app_nil_r. auto.
  - assert (Hc : (i =? 0) || bool_decide (is_Some err) = true).
    { destruct Herr as [->|Herr]; [reflexivity|].
      destruct err as [e|]; [|contradiction].
      rewrite bool_decide_eq_true_2 by eauto. apply orb_true_r. }
    rewrite Hc. unfold bind.
    destruct (shouldAttempt_makeRetryStrategies factor cap limit i st Hi)
      as (st1 & b & t1 & E & T & Hb & Ht).
    rewrite E. rewrite Hmod in Hb.
    assert (Hbt : b = true).
    { subst b. destruct (Z.gtb_spec (limit + 1) 1); [|lia].
      destruct (Z.leb_spec (limit + 1) i); [lia|reflexivity]. }
    clear Hb. subst b.
    assert (Hg1 : store_gets t1 = 0%nat).
    { destruct Ht as [[-> _]|(d & -> & _)]; reflexivity. }
    destruct (Hact i x st1) as (st2 & x2 & e2 & t2 & E2 & T2 & Hg2).
    rewrite E2.
    assert (Hi1 : (i + 1) mod uint_max = i + 1) by (apply Z.mod_small; lia).
    rewrite Hi1.
    destruct (IH (i + 1) fuel x2 (Some e2) st2) as (st3 & x3 & e3 & t3 & E3 & T3 & Hg3);
      [lia|lia|right; discriminate|lia|].
    exists st3, x3, e3, (t1 ++ t2 ++ t3)%list. split; [exact E3|].
    split; [rewrite T3, T2, T, <- !app_assoc; reflexivity|].
    rewrite !store_gets_app, Hg1, Hg2, Hg3. reflexivity.
Qed.

(** Whatever the action gives, as long as it returns and does not sleep,
    the sleeps of the loop are capped. *)
Lemma Retry_loop_capped {X : Type}
      (action : Z -> X -> M (X * option error))
      (factor cap : Duration) (limit : Z) :
  (forall i x st, exists st' r t,
      action i x st = Some (st', r)
      /\ trace st' = (trace st ++ t)%list
      /\ capped cap t) ->
  forall (fuel : nat) (i : Z) (x : X) (err : option error) (st st' : St)
         (r : X * option error),
    0 <= i ->
    Retry_loop fuel action (makeRetryStrategies factor cap limit) i x err st
    = Some (st', r) ->
    exists t, trace st' = (trace st ++ t)%list /\ capped cap t.
Proof.
  intros Hact.
  induction fuel as [|fuel IH]; intros i x err st st' r Hi H; [discriminate|].
  simpl in H.
  destruct ((i =? 0) || bool_decide (is_Some err)).
  2:{ unfold ret in H. injection H as <- _. exists []. rewrite app_nil_r.
      split; [reflexivity|constructor]. }
  unfold bind in H.
  destruct (shouldAttempt_makeRetryStrategies factor cap limit i st Hi)
    as (st1 & b & t1 & E & T & _ & Ht).
  rewrite E in H.
  assert (C1 : capped cap t1).
  { destruct Ht as [[-> _]|(d & -> & _ & _ & Hd)];
      [constructor | constructor; [exact Hd|constructor]]. }
  destruct b.
  2:{ unfold ret in H. injection H as <- _. exists t1. auto. }
  destruct (Hact i x st1) as (st2 & [x2 e2] & t2 & E2 & T2 & C2).
  rewrite E2 in H.
  apply IH in H as (t3 & T3 & C3).
  2:{ apply Z.mod_pos_bound. reflexivity. }
  exists (t1 ++ t2 ++ t3)%list.
  split; [rewrite T3, T2, T, <- !app_assoc; reflexivity|].
  unfold capped in *. rewrite !Forall_app. auto.
Qed.

Lemma only_dials_capped (cap : Duration) (t : list (Event ConnT)) :
  only_dials t -> capped cap t.
Proof.
  intros Ho. apply Forall_forall. intros e He.
  destruct e; try exact I.
  exfalso. apply (only_dials_no_sleep t d Ho). apply list_elem_of_In. exact He.
Qed.

(** X4: with a limit of [n] retries, one or more, a context that is never
    done and attempts that fail every time, [Connect] returns
    [ErrNoAvailableLeader] after [n + 1] attempts, each of which asked
    the store once: the first attempt and [n] retries. *)
Theorem Connect_gives_up_after_limit
        (c : Connector) (ctx : Context) (n : Z) (fuel : nat) (st : St) :
  RetryLimit (config c) = n ->
  1 <= n -> n + 1 < uint_max ->
  (forall st0, ctxDone ctx st0 = Some (st0, false)) ->
  (forall st0 st1 r, connectAttemptAll c ctx st0 = Some (st1, r) ->
                     r.2 <> None) ->
  (Z.to_nat n + 1 < fuel)%nat ->
  exists st' t,
    Connect fuel c ctx st = Some (st', (None, Some ErrNoAvailableLeader))
    /\ trace st' = (trace st ++ t)%list
    /\ store_gets t = (Z.to_nat n + 1)%nat.
Proof.
  intros Hn H1 H2 Hlive Hfail Hfuel. unfold Connect, Retry. rewrite Hn.
  match goal with
  | |- context [Retry_loop fuel ?a _ 0 None None] => set (action := a)
  end.
  assert (Hact : forall i x st0, exists st1 x' e t,
             action i x st0 = Some (st1, (x', Some e))
             /\ trace st1 = (trace st0 ++ t)%list
             /\ store_gets t = 1%nat).
  { intros i x st0. unfold action, bind. rewrite Hlive.
    destruct (runs_connectAttemptAll c ctx st0)
      as (st1 & [p e] & t & E & T & t' & -> & Ho & _).
    rewrite E. specialize (Hfail _ _ _ E). simpl in Hfail.
    destruct e as [e|]; [|contradiction].
    exists st1, p, e, (EvStoreGet :: t'). split; [reflexivity|].
    split; [exact T|].
    change (EvStoreGet :: t') with ([EvStoreGet] ++ t')%list.
    rewrite store_gets_app, (only_dials_store_gets t' Ho). reflexivity. }
  destruct (Retry_loop_limited action (BackoffFactor (config c))
              (BackoffCap (config c)) n H1 H2 Hact
              (Z.to_nat n + 1) 0 fuel None None st)
    as (st1 & x1 & e1 & t1 & E1 & T1 & G1); [lia|lia|auto|lia|].
  unfold bind. rewrite E1. exists st1, t1. auto.
Qed.

(** X5: when the context is done on entry, [Connect] returns
    [ErrNoAvailableLeader] at once: the store is not asked, nothing is
    dialed, nothing sleeps, the world is as it was. *)
Theorem Connect_cancelled_on_entry
        (c : Connector) (ctx : Context) (fuel : nat) (st : St) :
  ctxDone ctx st = Some (st, true) ->
  (1 < fuel)%nat ->
  Connect fuel c ctx st = Some (st, (None, Some ErrNoAvailableLeader)).
Proof.
  intros Hdone Hfuel. unfold Connect, Retry.
  destruct fuel as [|[|fuel]]; [lia|lia|].
  unfold bind at 1. cbn [Retry_loop]. cbn [Z.eqb orb].
  unfold bind at 1.
  destruct (shouldAttempt_makeRetryStrategies (BackoffFactor (config c))
              (BackoffCap (config c)) (RetryLimit (config c)) 0 st)
    as (st1 & b & t & E & T & Hb & Ht); [lia|].
  rewrite E.
  destruct Ht as [[-> ->]|(d & _ & Hpos & _)]; [|lia].
  assert (Hbt : b = true).
  { rewrite Hb.
    destruct (Z.gtb_spec ((RetryLimit (config c) + 1) mod uint_max) 1);
      [|reflexivity].
    destruct (Z.leb_spec ((RetryLimit (config c) + 1) mod uint_max) 0);
      [lia|reflexivity]. }
  rewrite Hbt. unfold bind at 1. unfold bind at 1. rewrite Hdone.
  unfold ret at 1.
  change ((0 + 1) mod uint_max) with 1.
  cbn [Z.eqb orb]. rewrite bool_decide_eq_false_2 by (intros [e He]; discriminate).
  unfold ret at 1. unfold bind. rewrite Hdone. reflexivity.
Qed.

(** X6: whenever [Connect] returns, every sleep it made between attempts
    lasted the cap of the configuration, or a positive time below it. *)
Theorem Connect_sleeps_capped
        (c : Connector) (ctx : Context) (fuel : nat) (st st' : St)
        (r : option Protocol * option error) :
  Connect fuel c ctx st = Some (st', r) ->
  exists t, trace st' = (trace st ++ t)%list
            /\ capped (BackoffCap (config c)) t.
Proof.
  unfold Connect, Retry. intros H.
  apply bind_Some in H as (st1 & [p e] & HR & H).
  apply Retry_loop_capped in HR as (t & T & C); [| |lia].
  - assert (st' = st1).
    { destruct e as [e|].
      - unfold ret in H. injection H as <- _. reflexivity.
      - apply bind_Some in H as (st2 & done & Hd & H).
        unfold ctxDone in Hd. injection Hd as <- <-.
        destruct (_ || _); [unfold ret in H; injection H as <- _; reflexivity|].
        destruct p; [unfold ret in H; injection H as <- _; reflexivity|].
        discriminate. }
    subst st1. exists t. auto.
  - intros i x st0. unfold bind, ctxDone.
    destruct (_ || _).
    + eexists _, _, []. split; [reflexivity|]. rewrite app_nil_r.
      split; [reflexivity|constructor].
    + destruct (runs_connectAttemptAll c ctx st0)
        as (st2 & [p2 e2] & t2 & E & T & t' & -> & Ho & _).
      rewrite E.
      exists st2, (p2, e2), (EvStoreGet :: t').
      split; [destruct e2; reflexivity|]. split; [exact T|].
      constructor; [exact I|]. apply only_dials_capped. exact Ho.
Qed.
End RetryLoop.

Section RetryExamples.
Import Sim Worlds.

Lemma Connect_gives_up_after_limit_witness :
  exists st' t,
    Connect (N := deserted) 10 (connector 2) Background (mkSt 0 [])
    = Some (st', (None, Some ErrNoAvailableLeader))
    /\ trace st' = t
    /\ store_gets t = 3%nat.
Proof.
  apply (Connect_gives_up_after_limit (N := deserted) (S := sorter)
           (connector 2) Background 2 10 (mkSt (N := deserted) 0 [])).
  - reflexivity.
  - lia.
  - reflexivity.
  - intros st0. reflexivity.
  - intros st0 st1 r H. vm_compute in H. injection H as _ <-. discriminate.
  - vm_compute. lia.
Defined.

Lemma Connect_cancelled_on_entry_witness :
  Connect (N := network) 2 (connector 0) Background (start cancelled)
  = Some (start cancelled, (None, Some ErrNoAvailableLeader)).
Proof.
  apply (Connect_cancelled_on_entry (N := network) (S := sorter)).
  - reflexivity.
  - lia.
Defined.

Lemma Connect_sleeps_capped_witness :
  exists st' t,
    Connect (N := deserted) 10 (connector 2) Background (mkSt 0 [])
    = Some (st', (None, Some ErrNoAvailableLeader))
    /\ trace st' = t
    /\ capped (N := deserted) second t.
Proof.
  eassert (E : Connect (N := deserted) 10 (connector 2) Background
                       (mkSt (N := deserted) 0 [])
               = Some (_, (None, Some ErrNoAvailableLeader)))
    by (vm_compute; reflexivity).
  destruct (Connect_sleeps_capped (N := deserted) (S := sorter)
              (connector 2) Background 10 _ _ _ E) as (t & T & C).
  eexists _, t. split; [exact E|]. split; [exact T|exact C].
Defined.
End RetryExamples.

(** ** The call engine: more on [Call], [Interrupt] and the receive path *)

Section Engine.
Context {N : Network}.
Context {NamedValue : Type} {codec : Codec NamedValue}.

(** X7: whenever a [Call] on a protocol without a remembered error
    returns, with or without an error, it has held the lock for the
    whole exchange, set the deadline of the context right after taking
    the lock and reset it right before releasing it, and the first thing
    it has written is the header of the request; all else in between is
    reading and writing on the connection of the protocol. *)
Theorem Call_holds_lock_and_deadline
        (ctx : Context) (request response response' : Message)
        (p p' : Protocol) (err : option error) (st st' : St) :
  netErr p = None ->
  Call ctx request response p st = Some (st', (p', response', err)) ->
  exists t,
    trace st'
    = (trace st ++ EvLock :: deadline_set ctx p
         ++ EvWrite (conn p) (header request) :: t
         ++ deadline_reset ctx p ++ [EvUnlock])%list
    /\ Forall (is_io p) t.
Proof.
  intros Hnil H. unfold Call in H. rewrite Hnil in H.
  apply bind_Some in H as (s1 & [] & H1 & H).
  apply bind_Some in H as (s2 & [] & H2 & H).
  apply bind_Some in H as (s3 & [r3 e3] & H3 & H).
  apply bind_Some in H as (s4 & [] & H4 & H).
  apply bind_Some in H as (s5 & [] & H5 & H).
  unfold ret in H. injection H as <- _ _ _.
  unfold Lock, Unlock, emit in H1, H5.
  injection H1 as <-. injection H5 as <-.
  assert (T2 : trace s2 = (trace st ++ EvLock :: deadline_set ctx p)%list).
  { unfold deadline_set. destruct (Deadline ctx);
      [unfold connSetDeadline in H2|unfold ret in H2];
      injection H2 as <-; simpl; rewrite <- ?app_assoc; reflexivity. }
  assert (T4 : trace s4 = (trace s3 ++ deadline_reset ctx p)%list).
  { unfold deadline_reset. destruct (Deadline ctx);
      [unfold connSetDeadline in H4|unfold ret in H4];
      injection H4 as <-; simpl; rewrite ?app_nil_r; reflexivity. }
  apply bind_Some in H3 as (s6 & e6 & Hs & H3).
  destruct (send_returns p request s2) as (s6' & e6' & t6 & Hs' & T6 & F6).
  rewrite Hs in Hs'. injection Hs' as <- <-.
  assert (Hshape : forall t,
             trace s3 = (trace s6 ++ t)%list ->
             trace {| world := world s4; trace := trace s4 ++ [EvUnlock] |}
             = (trace st ++ EvLock :: deadline_set ctx p
                  ++ EvWrite (conn p) (header request)
                  :: (t6 ++ t) ++ deadline_reset ctx p ++ [EvUnlock])%list).
  { intros t T3. simpl. rewrite T4, T3, T6, T2.
    repeat (rewrite <- app_assoc; simpl). reflexivity. }
  destruct e6 as [e|].
  - unfold ret in H3. injection H3 as <- _ _.
    exists (t6 ++ [])%list. split; [apply Hshape; rewrite app_nil_r; reflexivity|].
    rewrite app_nil_r. exact F6.
  - apply bind_Some in H3 as (s7 & [r7 e7] & Hr & H3).
    apply recv_reads in Hr as [(t7 & T7 & F7) _].
    assert (E3 : s3 = s7).
    { destruct e7; unfold ret in H3; injection H3 as <- _ _; reflexivity. }
    subst s3.
    exists (t6 ++ t7)%list. split; [apply Hshape; exact T7|].
    apply Forall_app. split; [exact F6|apply is_read_io; exact F7].
Qed.

(** X8: a [Call] that returns an error without a [net.OpError] on its
    chain, such as [io.EOF] from a peer that went away, a short write or
    [io.ErrNoProgress], remembers nothing: the protocol is as before and
    the next [Call] goes to the connection again. *)
Theorem Call_forgets_plain_errors
        (ctx : Context) (request response response' : Message)
        (p p' : Protocol) (err : error) (st st' : St) :
  netErr p = None ->
  Call ctx request response p st = Some (st', (p', response', Some err)) ->
  As_OpError err = None ->
  p' = p /\ netErr p' = None.
Proof.
  intros Hnil H Has. apply Call_remembers in H; [|exact Hnil].
  subst p'. unfold remember. rewrite Has. auto.
Qed.

Lemma Interrupt_loop_empty (fuel : nat) (p : Protocol)
      (response response' : Message) (st st' : St) :
  Interrupt_loop fuel p response st = Some (st', (response', None)) ->
  mtype response' = ResponseEmpty.
Proof.
  revert response st. induction fuel as [|fuel IH]; intros response st H.
  - discriminate.
  - simpl in H. apply bind_Some in H as (s1 & [r1 e1] & Hr & H).
    destruct e1 as [e|]; [discriminate|].
    destruct (Z.eqb_spec (mtype r1) ResponseEmpty) as [He|Hne].
    + unfold ret in H. injection H as _ <-. exact He.
    + eapply IH. exact H.
Qed.

(** X9: whenever [Interrupt] returns, it has sent the interrupt request
    and, between taking and releasing the lock, set and reset the
    deadline of the context; the protocol is as it was, whatever it
    remembered and whatever happened; and when it returns no error the
    last response read is the empty response. *)
Theorem Interrupt_drains
        (fuel : nat) (ctx : Context) (request request' response response' : Message)
        (p p' : Protocol) (err : option error) (st st' : St) :
  Interrupt fuel ctx request response p st
  = Some (st', (p', request', response', err)) ->
  p' = p
  /\ request' = EncodeInterrupt 0 request
  /\ (err = None -> mtype response' = ResponseEmpty)
  /\ exists t,
      trace st' = (trace st ++ EvLock :: deadline_set ctx p
                     ++ EvWrite (conn p) (header (EncodeInterrupt 0 request))
                     :: t ++ deadline_reset ctx p ++ [EvUnlock])%list
      /\ Forall (is_io p) t.
Proof.
  unfold Interrupt. intros H.
  apply bind_Some in H as (s1 & [] & H1 & H).
  apply bind_Some in H as (s2 & [] & H2 & H).
  apply bind_Some in H as (s3 & [r3 e3] & H3 & H).
  apply bind_Some in H as (s4 & [] & H4 & H).
  apply bind_Some in H as (s5 & [] & H5 & H).
  unfold ret in H. injection H as <- <- <- <- <-.
  split; [reflexivity|]. split; [reflexivity|].
  unfold Lock, Unlock, emit in H1, H5.
  injection H1 as <-. injection H5 as <-.
  assert (T2 : trace s2 = (trace st ++ EvLock :: deadline_set ctx p)%list).
  { unfold deadline_set. destruct (Deadline ctx);
      [unfold connSetDeadline in H2|unfold ret in H2];
      injection H2 as <-; simpl; rewrite <- ?app_assoc; reflexivity. }
  assert (T4 : trace s4 = (trace s3 ++ deadline_reset ctx p)%list).
  { unfold deadline_reset. destruct (Deadline ctx);
      [unfold connSetDeadline in H4|unfold ret in H4];
      injection H4 as <-; simpl; rewrite ?app_nil_r; reflexivity. }
  apply bind_Some in H3 as (s6 & e6 & Hs & H3).
  destruct (send_returns p (EncodeInterrupt 0 request) s2)
    as (s6' & e6' & t6 & Hs' & T6 & F6).
  rewrite Hs in Hs'. injection Hs' as <- <-.
  assert (Hshape : forall t,
             trace s3 = (trace s6 ++ t)%list ->
             trace {| world := world s4; trace := trace s4 ++ [EvUnlock] |}
             = (trace st ++ EvLock :: deadline_set ctx p
                  ++ EvWrite (conn p) (header (EncodeInterrupt 0 request))
                  :: (t6 ++ t) ++ deadline_reset ctx p ++ [EvUnlock])%list).
  { intros t T3. simpl. rewrite T4, T3, T6, T2.
    repeat (rewrite <- app_assoc; simpl). reflexivity. }
  destruct e6 as [e|].
  - unfold ret in H3. injection H3 as <- <- <-.
    split; [intros Hn; discriminate|].
    exists (t6 ++ [])%list. split; [apply Hshape; rewrite app_nil_r; reflexivity|].
    rewrite app_nil_r. exact F6.
  - split; [intros ->; eapply Interrupt_loop_empty; exact H3|].
    apply Interrupt_loop_reads in H3 as (t7 & T7 & F7).
    exists (t6 ++ t7)%list. split; [apply Hshape; exact T7|].
    apply Forall_app. split; [exact F6|apply is_read_io; exact F7].
Qed.

(** X10: when every read on the connection stores nothing and reports no
    error, [recvFill] gives up with [io.ErrNoProgress] after exactly
    [messageMaxConsecutiveEmptyReads] reads. *)
Theorem recvFill_no_progress (p : Protocol) (size : Z) (st : St) :
  (forall w, exists w', conn_Read (conn p) size w = (w', ([], None))) ->
  exists st',
    recvFill p size st = Some (st', inr ErrNoProgress)
    /\ trace st'
       = (trace st
            ++ repeat (EvRead (conn p) size) messageMaxConsecutiveEmptyReads)%list.
Proof.
  intros Hsilent. unfold recvFill.
  generalize messageMaxConsecutiveEmptyReads as i.
  intros i. revert st. induction i as [|i IH]; intros st; simpl.
  - exists st. rewrite app_nil_r. auto.
  - unfold bind, connRead. destruct (Hsilent (world st)) as [w' Hr].
    rewrite Hr. rewrite firstn_nil. simpl.
    destruct (IH (mkSt w' (trace st ++ [EvRead (conn p) size])))
      as (st' & E & T).
    exists st'. split; [exact E|]. rewrite T. simpl.
    rewrite <- app_assoc. reflexivity.
Qed.
End Engine.

Section EngineExamples.
Import Sim Worlds.

Lemma Call_holds_lock_and_deadline_witness :
  exists st' response' t,
    Call (mkContext (Some 7)) (EncodeLeader (Init 16)) (Init 512)
         (protocol_on 1 "a") (start redirecting)
    = Some (st', (protocol_on 1 "a", response', None))
    /\ trace st'
       = (EvLock :: EvSetDeadline "a" (Some 7)
            :: EvWrite "a" (header (EncodeLeader (Init 16))) :: t
            ++ [EvSetDeadline "a" None; EvUnlock])%list
    /\ Forall (is_io (protocol_on 1 "a")) t.
Proof.
  eassert (E : Call (N := network) (mkContext (Some 7))
                    (EncodeLeader (Init 16)) (Init 512) (protocol_on 1 "a")
                    (start redirecting)
               = Some (_, (protocol_on 1 "a", _, None)))
    by (vm_compute; reflexivity).
  destruct (Call_holds_lock_and_deadline (N := network) (mkContext (Some 7))
              (EncodeLeader (Init 16)) (Init 512) _ (protocol_on 1 "a") _ _
              (start redirecting) _ eq_refl E) as (t & T & F).
  eexists _, _, t. split; [exact E|]. split; [exact T|exact F].
Defined.

Lemma Call_forgets_plain_errors_witness :
  exists st' p' response',
    Call Background (EncodeLeader (Init 16)) (Init 512) (protocol_on 1 "a")
         (start quiet)
    = Some (st', (p', response',
                  Some (ErrorfW "call %s (budget %s): receive: %w"
                          (ErrorfW "header: %w" EOF))))
    /\ p' = protocol_on 1 "a" /\ netErr p' = None.
Proof.
  eassert (E : Call (N := network) Background (EncodeLeader (Init 16))
                    (Init 512) (protocol_on 1 "a") (start quiet)
               = Some (_, (_, _, Some _)))
    by (vm_compute; reflexivity).
  eexists _, _, _. split; [exact E|].
  apply (Call_forgets_plain_errors (N := network) Background
           (EncodeLeader (Init 16)) (Init 512) _ (protocol_on 1 "a") _ _
           (start quiet) _ eq_refl E eq_refl).
Defined.

Lemma Interrupt_drains_witness :
  exists st' request' response',
    Interrupt 5 (mkContext (Some 7)) (Init 16) (Init 4096)
              (protocol_on 1 "a") (start draining)
    = Some (st', (protocol_on 1 "a", request', response', None))
    /\ mtype response' = ResponseEmpty.
Proof.
  eassert (E : Interrupt (N := network) 5 (mkContext (Some 7)) (Init 16)
                         (Init 4096) (protocol_on 1 "a") (start draining)
               = Some (_, (_, _, _, None)))
    by (vm_compute; reflexivity).
  eexists _, _, _. split; [exact E|].
  apply (Interrupt_drains (N := network) _ _ _ _ _ _ _ _ _ _ _ E).
  reflexivity.
Defined.

Lemma recvFill_no_progress_witness :
  exists st',
    recvFill (N := deserted) lonely 8 dawn = Some (st', inr ErrNoProgress)
    /\ length (trace st') = 100%nat.
Proof.
  destruct (recvFill_no_progress (N := deserted) lonely 8 dawn)
    as (st' & E & T).
  - intros w. exists w. reflexivity.
  - exists st'. split; [exact E|]. rewrite T. reflexivity.
Defined.
End EngineExamples.

(** ** The wire header *)

Section WireHeader.
Context {N : Network}.

Lemma byte_val_of (v : Z) : byte_val (byte_of v) = v mod 256.
Proof.
  unfold byte_val, byte_of.
  assert (Hr : 0 <= Z.land v 255 < 256).
  { change 255 with (Z.ones 8). rewrite Z.land_ones by lia.
    apply Z.mod_pos_bound. lia. }
  destruct (Byte.of_N (Z.to_N (Z.land v 255))) as [b|] eqn:E.
  - apply Byte.to_of_N in E. rewrite E. rewrite Z2N.id by lia.
    change 255 with (Z.ones 8). rewrite Z.land_ones by lia. reflexivity.
  - apply Byte.of_N_None_iff in E. lia.
Qed.

Lemma lor_low_high (a b : Z) :
  0 <= a < 256 -> 0 <= b -> Z.lor a (Z.shiftl b 8) = a + 256 * b.
Proof.
  intros Ha Hb.
  assert (Hl : Z.land a (Z.shiftl b 8) = 0).
  { apply Z.bits_inj'. intros n Hn. rewrite Z.land_spec, Z.bits_0.
    destruct (Z.lt_ge_cases n 8) as [Hlt|Hge].
    - rewrite Z.shiftl_spec_low by lia. apply andb_false_r.
    - replace (Z.testbit a n) with false; [reflexivity|].
      symmetry. apply Z.bits_above_log2; [lia|].
      destruct (Z.eq_dec a 0) as [->|Hz]; [simpl; lia|].
      apply Z.log2_lt_pow2; [lia|].
      apply Z.lt_le_trans with (2 ^ 8); [lia|].
      apply Z.pow_le_mono_r; lia. }
  rewrite <- Z.lxor_lor by exact Hl.
  rewrite <- Z.add_nocarry_lxor by exact Hl.
  rewrite Z.shiftl_mul_pow2 by lia. change (2 ^ 8) with 256. lia.
Qed.

Lemma le_uint_cons (width : nat) (b : Byte.byte) (bs : list Byte.byte) :
  le_uint (Datatypes.S width) (b :: bs)
  = Z.lor (byte_val b) (Z.shiftl (le_uint width bs) 8).
Proof. reflexivity. Qed.

Lemma le_uint_nonneg (width : nat) (bs : list Byte.byte) :
  0 <= le_uint width bs.
Proof.
  unfold le_uint. generalize (firstn width bs) as l.
  induction l as [|b l IH]; simpl; [lia|].
  apply Z.lor_nonneg. split; [unfold byte_val; lia|].
  apply Z.shiftl_nonneg. exact IH.
Qed.

(** Little-endian bytes read back as the number written. A tail may
    follow them. *)
Lemma le_uint_le_bytes (width : nat) (v : Z) (tail : list Byte.byte) :
  0 <= v < 2 ^ (8 * Z.of_nat width) ->
  le_uint width (le_bytes width v ++ tail) = v.
Proof.
  revert v. induction width as [|width IH]; intros v Hv.
  - simpl in Hv. unfold le_uint. simpl. lia.
  - cbn [le_bytes app]. rewrite le_uint_cons, byte_val_of.
    assert (Hq : 0 <= Z.shiftr v 8 < 2 ^ (8 * Z.of_nat width)).
    { rewrite Z.shiftr_div_pow2 by lia. change (2 ^ 8) with 256.
      split; [apply Z.div_pos; lia|].
      apply Z.div_lt_upper_bound; [lia|].
      replace (8 * Z.of_nat (Datatypes.S width))
        with (8 + 8 * Z.of_nat width) in Hv by lia.
      rewrite Z.pow_add_r in Hv by lia. change (2 ^ 8) with 256 in Hv. lia. }
    rewrite (IH _ Hq).
    rewrite lor_low_high.
    + rewrite Z.shiftr_div_pow2 by lia. change (2 ^ 8) with 256.
      pose proof (Z.div_mod v 256). lia.
    + apply Z.mod_pos_bound. lia.
    + lia.
Qed.

Lemma recvFill_loop_one_read (i : nat) (p : Protocol) (size : Z) (st : St)
      (w : World) (data : list Byte.byte) :
  (0 < length data <= Z.to_nat size)%nat ->
  conn_Read (conn p) size (world st) = (w, (data, None)) ->
  recvFill_loop (Datatypes.S i) p size st
  = Some (mkSt w (trace st ++ [EvRead (conn p) size]), inl data).
Proof.
  intros Hd Hread. cbn [recvFill_loop]. unfold bind, connRead.
  rewrite Hread. rewrite firstn_all2 by lia.
  destruct (Z.ltb_spec 0 (len data)) as [_|Hz]; [reflexivity|].
  unfold len in Hz. lia.
Qed.

(** A buffer filled by one read. *)
Lemma recvPeek_one_read (p : Protocol) (buf data : list Byte.byte) (st : St)
      (w : World) :
  (0 < length buf)%nat -> length data = length buf ->
  conn_Read (conn p) (len buf) (world st) = (w, (data, None)) ->
  recvPeek p buf st
  = Some (mkSt w (trace st ++ [EvRead (conn p) (len buf)]), (data, None)).
Proof.
  intros Hpos Hlen Hread. unfold recvPeek.
  destruct (length buf) as [|fuel] eqn:El; [lia|].
  cbn [recvPeek_loop].
  assert (Hl : len buf = Z.of_nat (Datatypes.S fuel))
    by (unfold len; rewrite El; reflexivity).
  destruct (Z.ltb_spec 0 (len buf)) as [_|Hz]; [|lia].
  rewrite Z.sub_0_r. unfold bind, recvFill, messageMaxConsecutiveEmptyReads.
  rewrite (recvFill_loop_one_read 99 p (len buf) st w data); [| |exact Hread].
  2:{ unfold len. rewrite Nat2Z.id. lia. }
  assert (Hsp : splice buf 0 data = data).
  { unfold splice. simpl firstn. rewrite Nat.add_0_l.
    rewrite skipn_all2 by lia. apply app_nil_r. }
  rewrite Hsp.
  assert (Hld : len data = len buf) by (unfold len; rewrite Hlen, El; reflexivity).
  destruct fuel as [|fuel']; cbn [recvPeek_loop];
    (destruct (Z.ltb_spec (0 + len data) (len data)); [lia|reflexivity]).
Qed.

(** X11: when the connection delivers in one read the eight bytes
    [words:uint32 | type:uint8 | schema:uint8 | flags:uint16],
    little-endian, [recvHeader] makes one read of eight bytes and sets
    the four fields of the message to the numbers encoded; the body is
    not touched. *)
Theorem recvHeader_decodes
        (p : Protocol) (res : Message) (st : St) (w : World)
        (words0 t s x : Z) :
  length (header res) = 8%nat ->
  0 <= words0 < 2 ^ 32 -> 0 <= t < 256 -> 0 <= s < 256 -> 0 <= x < 2 ^ 16 ->
  conn_Read (conn p) 8 (world st)
  = (w, ((le_bytes 4 words0 ++ [byte_of t; byte_of s] ++ le_bytes 2 x)%list,
         None)) ->
  recvHeader p res st
  = Some (mkSt w (trace st ++ [EvRead (conn p) 8]),
          (mkMessage words0 t s x
                     (le_bytes 4 words0 ++ [byte_of t; byte_of s]
                        ++ le_bytes 2 x)%list
                     (body res), None)).
Proof.
  intros Hlen Hw Ht Hs Hx Hread.
  set (h := (le_bytes 4 words0 ++ [byte_of t; byte_of s] ++ le_bytes 2 x)%list)
    in *.
  assert (Hl : len (header res) = 8) by (unfold len; rewrite Hlen; reflexivity).
  unfold recvHeader, bind.
  rewrite (recvPeek_one_read p (header res) h st w);
    [|lia|rewrite Hlen; reflexivity|rewrite Hl; exact Hread].
  rewrite Hl. unfold ret.
  assert (E32 : Uint32 h = words0).
  { unfold Uint32, h. apply le_uint_le_bytes. exact Hw. }
  assert (E16 : Uint16 (skipn 6 h) = x).
  { assert (Hk : skipn 6 h = (le_bytes 2 x ++ [])%list) by reflexivity.
    rewrite Hk. unfold Uint16. apply le_uint_le_bytes. exact Hx. }
  assert (E4 : byte_val (nth 4 h Byte.x00) = t).
  { unfold h. simpl nth. rewrite byte_val_of. apply Z.mod_small. exact Ht. }
  assert (E5 : byte_val (nth 5 h Byte.x00) = s).
  { unfold h. simpl nth. rewrite byte_val_of. apply Z.mod_small. exact Hs. }
  rewrite E32, E16, E4, E5. reflexivity.
Qed.

(** The exchange of [Handshake] on a connection whose calls return. *)
Lemma Handshake_exchange
      (ctx : Context) (conn0 : ConnT) (version0 : Z) (st : St) :
  0 <= version0 < 2 ^ 64 ->
  exists st' r bytes,
    Handshake ctx conn0 version0 st = Some (st', r)
    /\ trace st'
       = (trace st
            ++ match Deadline ctx with
               | Some d => [EvSetDeadline conn0 (Some d)]
               | None => []
               end
            ++ [EvWrite conn0 bytes]
            ++ match Deadline ctx with
               | Some _ => [EvSetDeadline conn0 None]
               | None => []
               end)%list
    /\ length bytes = 8%nat
    /\ le_uint 8 bytes = version0
    /\ (forall p, r = inl p -> p = mkProtocol version0 conn0 None).
Proof.
  intros Hv. unfold Handshake, bind.
  assert (Hb : le_uint 8 (le_bytes 8 version0) = version0).
  { rewrite <- (app_nil_r (le_bytes 8 version0)).
    apply le_uint_le_bytes. exact Hv. }
  destruct (Deadline ctx) as [d|]; unfold connSetDeadline, connWrite, ret;
    simpl world; simpl trace;
    match goal with
    | |- context [conn_Write conn0 ?b ?w] =>
        destruct (conn_Write conn0 b w) as [w1 [n [e|]]]
    end;
    try destruct (n =? 8);
    eexists _, _, (le_bytes 8 version0);
    (split; [reflexivity|]);
    (split; [simpl; rewrite <- ?app_assoc; reflexivity|]);
    (split; [reflexivity|]); (split; [exact Hb|]);
    intros p Hp; inversion Hp; reflexivity.
Qed.

(** X12: whenever [Handshake] returns, it has made one write between
    setting and resetting the deadline of the context, of the eight
    little-endian bytes of the version; and when it gives a protocol,
    the protocol has that version, that connection and no remembered
    error. *)
Theorem Handshake_writes_version
        (ctx : Context) (conn0 : ConnT) (version0 : Z) (st st' : St)
        (r : Protocol + error) :
  0 <= version0 < 2 ^ 64 ->
  Handshake ctx conn0 version0 st = Some (st', r) ->
  exists bytes,
    trace st'
    = (trace st
         ++ match Deadline ctx with
            | Some d => [EvSetDeadline conn0 (Some d)]
            | None => []
            end
         ++ [EvWrite conn0 bytes]
         ++ match Deadline ctx with
            | Some _ => [EvSetDeadline conn0 None]
            | None => []
            end)%list
    /\ length bytes = 8%nat
    /\ le_uint 8 bytes = version0
    /\ (forall p, r = inl p -> p = mkProtocol version0 conn0 None).
Proof.
  intros Hv H.
  destruct (Handshake_exchange ctx conn0 version0 st Hv)
    as (st1 & r1 & bytes & E & T & Hl & Hb & Hp).
  rewrite H in E. injection E as <- <-.
  exists bytes. auto.
Qed.
End WireHeader.

Section WireHeaderExamples.
Import Sim Worlds.

Lemma recvHeader_decodes_witness :
  exists st',
    recvHeader (protocol_on 1 "c") (Init 512) (start redirecting)
    = Some (st', (mkMessage 2 ResponseNode 0 0
                            (le_bytes 4 2 ++ [Byte.x01; Byte.x00]
                               ++ le_bytes 2 0)%list
                            (body (Init 512)), None))
    /\ trace st' = [EvRead "c" 8].
Proof.
  eexists. split.
  - eapply (recvHeader_decodes (N := network)) with
        (words0 := 2) (t := ResponseNode) (s := 0) (x := 0);
      try (vm_compute; reflexivity); vm_compute; split; congruence.
  - reflexivity.
Defined.

Lemma Handshake_writes_version_witness :
  exists st' p,
    Handshake (N := network) (mkContext (Some 7)) "a" VersionLegacy
              (start quiet)
    = Some (st', inl p)
    /\ version p = VersionLegacy
    /\ trace st'
       = [EvSetDeadline "a" (Some 7);
          EvWrite "a" [Byte.xe5; Byte.x3f; Byte.x43; Byte.x60;
                       Byte.xd7; Byte.x4d; Byte.x10; Byte.x86];
          EvSetDeadline "a" None].
Proof.
  eassert (E : Handshake (N := network) (mkContext (Some 7)) "a"
                         VersionLegacy (start quiet)
               = Some (_, inl _))
    by (vm_compute; reflexivity).
  destruct (Handshake_writes_version (N := network) (mkContext (Some 7)) "a"
              VersionLegacy (start quiet) _ _
              ltac:(vm_compute; split; congruence) E)
    as (bytes & T & _ & _ & Hp).
  eexists _, _. split; [exact E|]. split; reflexivity.
Defined.
End WireHeaderExamples.

(** ** The driver: errors and values *)

Section DriverMore.
Context {N : Network}.
Context {NamedValue : Type} {codec : Codec NamedValue}.
Context {Rows : Type} {rcodec : ResultCodec Rows}.

(** X13: [driverError] applied to its own result changes nothing: its
    results are [driver.ErrBadConn], an [Error] with a code, or an error
    it had no reason to touch. *)
Theorem driverError_idempotent (err : error) :
  driverError (driverError err) = driverError err.
Proof.
  unfold driverError at 2 3.
  destruct (match As_Errno err with
            | Some errno => negb (errno =? 0)
            | None => false
            end) eqn:E1; [reflexivity|].
  destruct (bool_decide (is_Some (As_OpError err))) eqn:E2; [reflexivity|].
  destruct (As_ErrRequest err) as [[code desc]|] eqn:E3.
  - destruct (_ || _); [reflexivity|].
    destruct (code =? errNotFound); [reflexivity|].
    destruct (code =? 0); reflexivity.
  - destruct (Is_EOF err) eqn:E4; [reflexivity|].
    unfold driverError. rewrite E1, E2, E3, E4. reflexivity.
Qed.

(** X14: an error with a [syscall.Errno] other than zero or a
    [net.OpError] anywhere on its chain is [driver.ErrBadConn], whatever
    else the chain holds; so is an [io.EOF] on a chain without a failure
    response. *)
Theorem driverError_connection_lost (err : error) :
  (exists errno, As_Errno err = Some errno /\ errno <> 0)
  \/ is_Some (As_OpError err)
  \/ (As_ErrRequest err = None /\ Is_EOF err = true) ->
  driverError err = ErrBadConn.
Proof.
  unfold driverError. intros [(errno & -> & Hn)|[Hop|[Hreq Heof]]].
  - destruct (Z.eqb_spec errno 0); [contradiction|reflexivity].
  - destruct (match As_Errno err with
              | Some errno => negb (errno =? 0)
              | None => false
              end); [reflexivity|].
    rewrite bool_decide_eq_true_2 by exact Hop. reflexivity.
  - destruct (match As_Errno err with
              | Some errno => negb (errno =? 0)
              | None => false
              end); [reflexivity|].
    destruct (bool_decide _); [reflexivity|].
    rewrite Hreq, Heof. reflexivity.
Qed.

(** X15: on a connection whose protocol remembers a network error, the
    four Exec/Query entry points return [driver.ErrBadConn] at once, for
    any number of arguments up to [MaxUint32]: the lock is taken and
    released and nothing is written or read. *)
Theorem broken_connection_is_ErrBadConn
        (ctx : Context) (query : string) (args : list NamedValue)
        (e e' : error) (st : St) :
  As_OpError e = Some e' ->
  len args <= MaxUint32 ->
  let st' := mkSt (world st) (trace st ++ [EvLock; EvUnlock]) in
  (forall c : Conn,
      netErr (c_protocol c) = Some e ->
      (exists c', Conn_ExecContext ctx query args c st
                  = Some (st', (c', inr ErrBadConn)))
      /\ (exists c', Conn_QueryContext ctx query args c st
                     = Some (st', (c', inr ErrBadConn))))
  /\ (forall s : Stmt,
        netErr (s_protocol s) = Some e ->
        (exists s', Stmt_ExecContext ctx args s st
                    = Some (st', (s', inr ErrBadConn)))
        /\ (exists s', Stmt_QueryContext ctx args s st
                       = Some (st', (s', inr ErrBadConn)))).
Proof.
  intros Hop Hlen st'.
  assert (Hd : driverError e = ErrBadConn).
  { unfold driverError.
    destruct (match As_Errno e with
              | Some errno => negb (errno =? 0)
              | None => false
              end); [reflexivity|].
    rewrite bool_decide_eq_true_2 by eauto. reflexivity. }
  assert (Hgt : (len args >? MaxUint32) = false)
    by (destruct (Z.gtb_spec (len args) MaxUint32); [lia|reflexivity]).
  split.
  - intros c Hc. unfold Conn_ExecContext, Conn_QueryContext, Conn_call.
    rewrite Hgt. unfold bind.
    split; rewrite (Call_fails_fast _ _ _ _ e _ Hc); unfold ret;
      rewrite Hd; eexists; reflexivity.
  - intros s Hs. unfold Stmt_ExecContext, Stmt_QueryContext, Stmt_call.
    rewrite Hgt. unfold bind.
    split; rewrite (Call_fails_fast _ _ _ _ e _ Hs); unfold ret;
      rewrite Hd; eexists; reflexivity.
Qed.
End DriverMore.

Section Values.
Import Values.

(** X16: [valuesToNamedValues] keeps the values in order and numbers
    them from one: the result is as long as the argument, and its entry
    at index [i] holds the value at index [i] with ordinal [i + 1]. *)
Theorem valuesToNamedValues_ordinals {V : Type} (args : list V) :
  length (valuesToNamedValues args) = length args
  /\ map Value (valuesToNamedValues args) = args
  /\ forall (i : nat) (nv : NamedValue V),
      valuesToNamedValues args !! i = Some nv ->
      Ordinal nv = Z.of_nat i + 1 /\ args !! i = Some (Value nv).
Proof.
  unfold valuesToNamedValues. split; [apply length_imap|]. split.
  - apply list_eq. intros i. rewrite list_lookup_fmap, list_lookup_imap.
    destruct (args !! i); reflexivity.
  - intros i nv H. rewrite list_lookup_imap in H.
    destruct (args !! i) as [v|]; [|discriminate].
    injection H as <-. auto.
Qed.
End Values.

Section DriverExamples.
Import Sim Worlds.

Lemma driverError_connection_lost_witness :
  driverError (ErrorfW "call %s (budget %s): send: %w"
                 (ErrorfW "header: %w" (reset_by_peer "write")))
  = ErrBadConn
  /\ driverError (ErrorfW "call %s (budget %s): receive: %w"
                    (ErrorfW "header: %w" EOF))
     = ErrBadConn.
Proof.
  split; apply driverError_connection_lost.
  - left. exists 104. split; [reflexivity|discriminate].
  - right. right. split; reflexivity.
Defined.

Lemma broken_connection_is_ErrBadConn_witness :
  exists c',
    Conn_ExecContext Background "SELECT 1" [7]
                     (mkConn (broken_on "a") (Init 4096) (Init 4096) 0)
                     (start redirecting)
    = Some (mkSt (N := network) redirecting [EvLock; EvUnlock],
            (c', inr ErrBadConn)).
Proof.
  destruct (broken_connection_is_ErrBadConn (N := network) (codec := codec)
              (rcodec := rcodec) Background "SELECT 1" [7]
              (reset_by_peer "write") (reset_by_peer "write")
              (start redirecting)) as [Hc _].
  - reflexivity.
  - vm_compute. discriminate.
  - apply (Hc (mkConn (broken_on "a") (Init 4096) (Init 4096) 0)).
    reflexivity.
Defined.
End DriverExamples.

(** ** The node stores: what a successful [Set] does *)

Section StoresMore.
Import Store.
Context {F : Files}.

(** X17: a [Set] that succeeds has marshalled the list and written it to
    the file of the store, and the store now holds the very slice it was
    given: a [Get] returns a copy of that list, and a later write of the
    caller through the slice changes the list the store holds. *)
Theorem Set_stores_the_slice
        (s s' : YamlNodeStore) (r : nat) (m m' : Mem) :
  Set_ s r m = (s', m', None) ->
  path s' = path s
  /\ heap m' = heap m
  /\ (exists data,
         yaml_Marshal (deref (heap m) r) = inl data
         /\ renameio_WriteFile (path s) data (fs m) = (fs m', None))
  /\ (Get s' m').2 .2 = None
  /\ deref (heap (Get s' m').1) (Get s' m').2 .1 = deref (heap m) r
  /\ forall (i : nat) (v : NodeInfo) (h'' : list (list NodeInfo)),
      store_elem r i v (heap m') = Some h'' ->
      held s' (mkMem h'' (fs m')) = <[i := v]> (deref (heap m) r).
Proof.
  intros H. unfold Set_ in H.
  destruct (yaml_Marshal (deref (heap m) r)) as [data|e] eqn:Em;
    [|discriminate].
  destruct (renameio_WriteFile (path s) data (fs m)) as [fs' [e|]] eqn:Ew;
    [discriminate|].
  injection H as <- <-. simpl.
  split; [reflexivity|]. split; [reflexivity|].
  split; [exists data; auto|]. split; [reflexivity|].
  split.
  - unfold deref at 1. rewrite lookup_app_r by lia.
    rewrite Nat.sub_diag. reflexivity.
  - intros i v h'' Hst. unfold store_elem in Hst.
    unfold held, deref. simpl.
    destruct (heap m !! r) as [l|] eqn:El; [|discriminate].
    destruct (bool_decide _); [|discriminate].
    injection Hst as <-.
    rewrite list_lookup_insert_eq by (apply lookup_lt_Some in El; exact El).
    reflexivity.
Qed.
End StoresMore.

Section InmemStore.
Import Inmem.

(** X18: [InmemNodeStore.Set] cannot fail, and the store then holds the
    slice it was given; [Get] returns no error and a reference that was
    not in use, to a copy of the list held, so that a change of the heap
    at that reference leaves the list held as it was. *)
Theorem Inmem_Set_Get
        (i : InmemNodeStore) (r : nat) (h : list (list NodeInfo)) :
  (r < length h)%nat ->
  (Set_ i r).2 = None
  /\ servers (Set_ i r).1 = r
  /\ (Get (Set_ i r).1 h).2 .2 = None
  /\ h !! (Get (Set_ i r).1 h).2 .1 = None
  /\ (Get (Set_ i r).1 h).1 !! (Get (Set_ i r).1 h).2 .1 = h !! r
  /\ forall h'' : list (list NodeInfo),
      (forall r', r' <> (Get (Set_ i r).1 h).2 .1 ->
                  h'' !! r' = (Get (Set_ i r).1 h).1 !! r') ->
      h'' !! servers (Set_ i r).1 = h !! r.
Proof.
  intros Hr. unfold Set_, Get. simpl.
  split; [reflexivity|]. split; [reflexivity|]. split; [reflexivity|].
  split; [apply lookup_ge_None_2; lia|].
  destruct (lookup_lt_is_Some_2 h r Hr) as [l Hl].
  split.
  - rewrite lookup_app_r by lia. rewrite Nat.sub_diag, Hl. reflexivity.
  - intros h'' Hagree. rewrite Hagree by lia.
    rewrite lookup_app_l by lia. reflexivity.
Qed.
End InmemStore.

Section StoreExamples.
Import Store SimFiles.

Lemma Set_stores_the_slice_witness :
  exists s' m' h'',
    Set_ store0 2%nat mem0 = (s', m', None)
    /\ store_elem 2%nat 0%nat n1 (heap m') = Some h''
    /\ held s' m' = [n2]
    /\ held s' (mkMem h'' (fs m')) = [n1].
Proof.
  eassert (E : Set_ store0 2%nat mem0 = (_, _, None))
    by (vm_compute; reflexivity).
  destruct (Set_stores_the_slice _ _ _ _ _ E) as (_ & _ & _ & _ & _ & Hw).
  eexists _, _, _. split; [exact E|].
  split; [vm_compute; reflexivity|]. split; [reflexivity|].
  apply (Hw 0%nat n1). vm_compute. reflexivity.
Defined.

Lemma Inmem_Set_Get_witness :
  (Inmem.Get (Inmem.Set_ (Inmem.mkInmemNodeStore 0) 2%nat).1
             [[n1]; [anonymous]; [n2]]).1 !! 3%nat
  = Some [n2].
Proof.
  destruct (Inmem_Set_Get (Inmem.mkInmemNodeStore 0) 2%nat
              [[n1]; [anonymous]; [n2]])
    as (_ & _ & _ & _ & H & _).
  - simpl. lia.
  - exact H.
Defined.
End StoreExamples.

(** ** The retry strategies without a limit *)

Section Unlimited.
Context {N : Network}.

(** X19: a retry limit of zero sets no limit, and so does, by the
    wrap-around of the increment, the largest [uint]: the strategies of
    [makeRetryStrategies] then let every attempt through. With a limit
    [n] in between, the attempt numbered [n + 1] is refused without a
    sleep. *)
Theorem retry_limit_edges (factor cap : Duration) (limit : Z) (st : St) :
  0 <= limit < uint_max ->
  ((limit = 0 \/ limit = uint_max - 1) ->
   forall attempt : Z, 0 <= attempt ->
     exists st', shouldAttempt attempt
                   (makeRetryStrategies factor cap limit) st
                 = Some (st', true))
  /\ (1 <= limit < uint_max - 1 ->
      shouldAttempt (limit + 1) (makeRetryStrategies factor cap limit) st
      = Some (st, false)).
Proof.
  intros Hl. split.
  - intros Hz attempt Ha.
    destruct (shouldAttempt_makeRetryStrategies factor cap limit attempt st Ha)
      as (st' & b & t & E & _ & Hb & _).
    exists st'. rewrite E. f_equal. f_equal. rewrite Hb.
    assert (Hm : (limit + 1) mod uint_max <= 1).
    { destruct Hz as [->| ->]; [reflexivity|].
      replace (uint_max - 1 + 1) with uint_max by lia.
      rewrite Z.mod_same by (unfold uint_max; lia). lia. }
    destruct (Z.gtb_spec ((limit + 1) mod uint_max) 1); [lia|reflexivity].
  - intros Hn.
    destruct (shouldAttempt_makeRetryStrategies factor cap limit (limit + 1) st)
      as (st' & b & t & E & _ & Hb & Ht); [lia|].
    rewrite Z.mod_small in Hb by lia.
    assert (Hbf : b = false).
    { rewrite Hb. destruct (Z.gtb_spec (limit + 1) 1); [|lia].
      destruct (Z.leb_spec (limit + 1) (limit + 1)); [reflexivity|lia]. }
    destruct Ht as [[_ ->]|(d & _ & _ & Hbt & _)]; [|congruence].
    rewrite E, Hbf. reflexivity.
Qed.
End Unlimited.

Section UnlimitedExample.
Import Sim Worlds.

Lemma retry_limit_edges_witness :
  (exists st', shouldAttempt (N := deserted) 1000
                 (makeRetryStrategies 1 5 (uint_max - 1)) dawn
               = Some (st', true))
  /\ shouldAttempt (N := deserted) 3 (makeRetryStrategies 1 5 2) dawn
     = Some (dawn, false).
Proof.
  split.
  - destruct (retry_limit_edges (N := deserted) 1 5 (uint_max - 1) dawn)
      as [H _]; [vm_compute; split; congruence|].
    apply H; [right; reflexivity|lia].
  - destruct (retry_limit_edges (N := deserted) 1 5 2 dawn)
      as [_ H]; [vm_compute; split; congruence|].
    apply H. vm_compute. split; congruence.
Defined.
End UnlimitedExample.

(** ** Edges of sending, receiving and connecting *)

Section Edges.
Context {N : Network} {S : Sorter}.
Context {NamedValue : Type} {codec : Codec NamedValue}.

(** X20: when the write of the header fails, or is short of the eight
    bytes, [send] returns the error (for a short write,
    [io.ErrShortWrite]) wrapped as a header error, and the body is not
    written. *)
Theorem send_header_failure
        (p : Protocol) (req : Message) (st : St) (w : World) (n : Z)
        (e : option error) :
  conn_Write (conn p) (header req) (world st) = (w, (n, e)) ->
  e <> None \/ n <> messageHeaderSize ->
  send p req st
  = Some (mkSt w (trace st ++ [EvWrite (conn p) (header req)]),
          Some (ErrorfW "header: %w" match e with
                                     | Some e0 => e0
                                     | None => ErrShortWrite
                                     end)).
Proof.
  intros Hw Hfail. unfold send, sendHeader, bind, connWrite. rewrite Hw.
  destruct e as [e0|]; [reflexivity|].
  destruct Hfail as [Hfail|Hfail]; [contradiction|].
  destruct (Z.eqb_spec n messageHeaderSize); [contradiction|reflexivity].
Qed.

(** X21: a response whose header announces no words has no body to
    read: [recvBody] returns at once without an error, the connection
    and the message untouched, whatever the size of the buffer. *)
Theorem recvBody_no_words (p : Protocol) (res : Message) (st : St) :
  words res = 0 ->
  recvBody p res st = Some (st, (res, None)).
Proof.
  intros Hw. unfold recvBody. rewrite Hw.
  change (0 * messageWordSize) with 0. change (Z.to_nat 0) with 0%nat.
  assert (Hg : (0 >? len (Bytes (body res))) = false).
  { destruct (Z.gtb_spec 0 (len (Bytes (body res)))); [|reflexivity].
    unfold len in *. lia. }
  unfold grow. rewrite Hg. unfold bind, recvPeek. simpl. unfold ret.
  destruct res as [w0 t0 s0 x0 h0 [bytes off]]. reflexivity.
Qed.

(** X22: when the first attempt of [Connect] finds the leader, [Connect]
    returns its protocol if the context is still not done after the
    attempt; if the context is done by then, [Connect] returns
    [ErrNoAvailableLeader] instead. Either way there was one attempt and
    nothing was done after it: no sleep, no closing of the connection
    found. *)
Theorem Connect_first_attempt
        (c : Connector) (ctx : Context) (fuel : nat) (st st' : St)
        (p : Protocol) (done : bool) :
  ctxDone ctx st = Some (st, false) ->
  connectAttemptAll c ctx st = Some (st', (Some p, None)) ->
  ctxDone ctx st' = Some (st', done) ->
  (1 < fuel)%nat ->
  Connect fuel c ctx st
  = Some (st', if done then (None, Some ErrNoAvailableLeader)
               else (Some p, None)).
Proof.
  intros Hlive Hall Hdone Hfuel. unfold Connect, Retry.
  destruct fuel as [|[|fuel]]; [lia|lia|].
  unfold bind at 1. cbn [Retry_loop]. cbn [Z.eqb orb].
  unfold bind at 1.
  destruct (shouldAttempt_makeRetryStrategies (BackoffFactor (config c))
              (BackoffCap (config c)) (RetryLimit (config c)) 0 st)
    as (st1 & b & t & E & T & Hb & Ht); [lia|].
  rewrite E.
  destruct Ht as [[-> ->]|(d & _ & Hpos & _)]; [|lia].
  assert (Hbt : b = true).
  { rewrite Hb.
    destruct (Z.gtb_spec ((RetryLimit (config c) + 1) mod uint_max) 1);
      [|reflexivity].
    destruct (Z.leb_spec ((RetryLimit (config c) + 1) mod uint_max) 0);
      [lia|reflexivity]. }
  rewrite Hbt. unfold bind at 1. unfold bind at 1. rewrite Hlive.
  unfold bind at 1. rewrite Hall. unfold ret at 1.
  change ((0 + 1) mod uint_max) with 1.
  cbn [Z.eqb orb]. rewrite bool_decide_eq_false_2 by (intros [e He]; discriminate).
  unfold ret at 1. unfold bind. rewrite Hdone.
  destruct done; reflexivity.
Qed.
End Edges.

Section EdgesExamples.
Import Sim Worlds.

Lemma send_header_failure_witness :
  send (protocol_on 1 "a") (EncodeLeader (Init 16))
       (start (mkWorld 0 None [] [] ["a"] []))
  = Some (mkSt (N := network) (mkWorld 0 None [] [] ["a"] [])
               [EvWrite "a" (header (EncodeLeader (Init 16)))],
          Some (ErrorfW "header: %w" (reset_by_peer "write"))).
Proof.
  apply (send_header_failure (N := network) (protocol_on 1 "a")
           (EncodeLeader (Init 16)) (start (mkWorld 0 None [] [] ["a"] []))
           (mkWorld 0 None [] [] ["a"] []) 0
           (Some (reset_by_peer "write"))).
  - reflexivity.
  - left. discriminate.
Defined.

Lemma recvBody_no_words_witness :
  recvBody (protocol_on 1 "a") (Init 0) (start quiet)
  = Some (start quiet, (Init 0, None)).
Proof.
  apply (recvBody_no_words (N := network)). reflexivity.
Defined.

Lemma Connect_first_attempt_witness :
  exists st',
    Connect (N := network) 2 (connector 0) Background (start redirecting)
    = Some (st', (Some (protocol_on 1 "d"), None))
    /\ dials (trace st') = ["b"; "c"; "a"; "d"].
Proof.
  eassert (E : connectAttemptAll (N := network) (S := sorter) (connector 0)
                                 Background (start redirecting)
               = Some (_, (Some (protocol_on 1 "d"), None)))
    by (vm_compute; reflexivity).
  eexists. split.
  - apply (Connect_first_attempt (N := network) (S := sorter) (connector 0)
             Background 2 (start redirecting) _ (protocol_on 1 "d") false
             eq_refl E eq_refl). lia.
  - reflexivity.
Defined.
End EdgesExamples.
